(** * cfx-r2: the storage client (R2Client, R2Bucket)

    A shallow embedding of [packages/cfx-r2/src/bucket.ts] and
    [packages/cfx-r2/src/client.ts], and the properties of the storage
    client that follow from that code.

    Modelling conventions.
    - A JavaScript string is a sequence of code units.  Every string that
      the client handles is an HTTP header name, an HTTP header value or
      the text of a response body; header names and values are
      ByteStrings in the Fetch standard (code units below 256), so strings
      are Rocq [string]s (one [ascii] per code unit).  The string
      primitives that the code calls ([startsWith], [endsWith], [slice],
      [===], [join], template concatenation, [replace]) act code unit by
      code unit.
    - [Record<string, string>] objects built by the code are finite maps
      ([gmap string string]); an object the code only enumerates with
      [Object.entries] is the list of its entries in enumeration order.
    - A Number is an IEEE 754 double.  The Number that the client
      computes is the result of [parseInt]: it is modelled with its
      rounding to 53 bits, its infinities, [-0] and [NaN] ([JS.number]).
      The Numbers that the client only passes on (a status, a number of
      seconds, a size in bytes) are integers.
    - [awsClient.sign] and [fetch] are the two effects.  They are the
      variables of a section, and every call is recorded in a trace. *)

From Stdlib Require Import String Ascii ZArith List Bool Lia.
From stdpp Require Import gmap strings.

Local Open Scope string_scope.

(* [simpl] unfolds an append whose first argument starts with a
   constructor. *)
#[local] Arguments String.append !s1 s2.

(** ** JavaScript primitives used by the client *)

Module JS.

(** A JavaScript Number as the client meets it.  A Number is an IEEE 754
    double; the ones the client reads are the results of [parseInt]:
    [NaN], an infinity, the negative zero, or a double whose value is an
    integer.  [Num z] is the double whose value is the integer [z] ([+0]
    for [z = 0]); the code builds it through [toNumber] only, which
    rounds as the conversion of a mathematical value to a Number does,
    so that [z] is the value of a double. *)
Inductive number : Type :=
| NaN
| Infinity (negative : bool)
| NegZero
| Num (z : Z).

(** The double nearest to the positive integer [m], as an integer: a
    double has a significand of 53 bits, so that [m] is kept when it is
    below [2^53]; otherwise the bits below the 53 leading ones are
    rounded away, to the nearest multiple of their unit and, half way
    between two, to the one with an even significand. *)
Definition roundToDouble (m : Z) : Z :=
  let e := (Z.log2 m - 52)%Z in
  if (e <=? 0)%Z then m
  else
    let ulp := (2 ^ e)%Z in
    let q := (m / ulp)%Z in
    let rest := (m mod ulp)%Z in
    let half := (2 ^ (e - 1))%Z in
    let q' := if (half <? rest)%Z || ((rest =? half)%Z && Z.odd q)
              then (q + 1)%Z else q in
    (q' * ulp)%Z.

(** The Number for the mathematical integer of magnitude [m] and the
    given sign, as [parseInt] returns it: [-0] for a zero read after a
    minus sign, an infinity when the rounded magnitude is beyond the
    largest double (from [2^1024] on). *)
Definition toNumber (negative : bool) (m : Z) : number :=
  if (m =? 0)%Z then (if negative then NegZero else Num 0)
  else
    let r := roundToDouble m in
    if (2 ^ 1024 <=? r)%Z then Infinity negative
    else Num (if negative then (- r)%Z else r).

(** [s.startsWith(p)] *)
Fixpoint startsWith (s p : string) {struct p} : bool :=
  match p with
  | EmptyString => true
  | String a p' =>
      match s with
      | EmptyString => false
      | String b s' => Ascii.eqb b a && startsWith s' p'
      end
  end.

(** [s.substring(n)] for [0 <= n]: the string without its first [n]
    code units. *)
Fixpoint dropUnits (n : nat) (s : string) : string :=
  match n, s with
  | O, _ => s
  | S _, EmptyString => EmptyString
  | S n', String _ s' => dropUnits n' s'
  end.

(** [s.endsWith(suf)]: the comparison starts at [s.length - suf.length]
    and fails when that is negative. *)
Definition endsWith (s suf : string) : bool :=
  let n := String.length s in
  let m := String.length suf in
  (m <=? n)%nat && String.eqb (dropUnits (n - m) s) suf.

(** The way [slice] reads a relative index: a negative index counts from
    the end, and the result is clamped to [0 .. len]. *)
Definition relativeIndex (len : nat) (i : Z) : nat :=
  if (i <? 0)%Z then Z.to_nat (Z.max (Z.of_nat len + i) 0)
  else Nat.min (Z.to_nat i) len.

(** [s.slice(start, end)] *)
Definition slice (s : string) (start end_ : Z) : string :=
  let len := String.length s in
  let from := relativeIndex len start in
  let to := relativeIndex len end_ in
  substring from (to - from) s.

(** [c.toLowerCase()] on one code unit below 256: the letters [A-Z] and
    the Latin-1 capitals U+00C0..U+00DE (U+00D7, the multiplication
    sign, apart) move up by 32. *)
Definition lowerUnit (c : ascii) : ascii :=
  let n := nat_of_ascii c in
  if ((65 <=? n) && (n <=? 90) ||
      (192 <=? n) && (n <=? 222) && negb (n =? 215))%nat
  then ascii_of_nat (n + 32)
  else c.

(** [s.toLowerCase()] *)
Fixpoint toLowerCase (s : string) : string :=
  match s with
  | EmptyString => EmptyString
  | String c s' => String (lowerUnit c) (toLowerCase s')
  end.

(** White space and line terminators below 256: TAB, LF, VT, FF, CR,
    SP and NBSP. *)
Definition isWhiteSpace (c : ascii) : bool :=
  let n := nat_of_ascii c in
  ((9 <=? n) && (n <=? 13) || (n =? 32) || (n =? 160))%nat.

Fixpoint trimStart (s : string) : string :=
  match s with
  | EmptyString => EmptyString
  | String c s' => if isWhiteSpace c then trimStart s' else s
  end.

Fixpoint trimEnd (s : string) : string :=
  match s with
  | EmptyString => EmptyString
  | String c s' =>
      let t := trimEnd s' in
      if isWhiteSpace c && String.eqb t EmptyString then EmptyString
      else String c t
  end.

(** [s.trim()] *)
Definition trim (s : string) : string := trimEnd (trimStart s).

(** [s.replace(/c/g, '')] for a one-character pattern [c]: every
    occurrence of [c] is removed. *)
Fixpoint removeAll (c : ascii) (s : string) : string :=
  match s with
  | EmptyString => EmptyString
  | String a s' =>
      if Ascii.eqb a c then removeAll c s' else String a (removeAll c s')
  end.

(** [s.replace(pat, rep)] for a string pattern (and a replacement
    without [$]): the first occurrence of [pat], if any, is replaced. *)
Fixpoint replace (s pat rep : string) {struct s} : string :=
  if startsWith s pat then rep ++ dropUnits (String.length pat) s
  else
    match s with
    | EmptyString => EmptyString
    | String c s' => String c (replace s' pat rep)
    end.

(** [xs.join(sep)] on an array of strings *)
Fixpoint join (xs : list string) (sep : string) : string :=
  match xs with
  | [] => EmptyString
  | [x] => x
  | x :: rest => x ++ sep ++ join rest sep
  end.

(** A value in a boolean position: a string is truthy unless empty. *)
Definition truthy (s : string) : bool := negb (String.eqb s EmptyString).

(** [x || undefined] on an optional string: the string when it is there
    and not empty. *)
Definition orUndefined (x : option string) : option string :=
  match x with
  | Some s => if truthy s then Some s else None
  | None => None
  end.

Definition isDigit (c : ascii) : bool :=
  let n := nat_of_ascii c in ((48 <=? n) && (n <=? 57))%nat.

Definition digitValue (c : ascii) : Z := (Z.of_nat (nat_of_ascii c) - 48)%Z.

(** The value of the longest prefix of decimal digits, when there is at
    least one digit. *)
Fixpoint digits (acc : option Z) (s : string) : option Z :=
  match s with
  | EmptyString => acc
  | String c s' =>
      if isDigit c
      then digits (Some (10 * default 0 acc + digitValue c)%Z) s'
      else acc
  end.

(** [parseInt(s, 10)]: leading white space is skipped, one sign is read,
    then the longest prefix of digits; what follows is ignored.  The
    result is [NaN] when there is no digit, and otherwise the Number for
    the integer that the digits write, with the sign read.  (Beyond 20
    significant digits the standard lets an engine read the further
    digits as zeros; this is the conversion of the digits as they are,
    which is what V8 computes.) *)
Definition parseInt (s : string) : number :=
  let t := trimStart s in
  let '(negative, body) :=
    match t with
    | String "-" r => (true, r)
    | String "+" r => (false, r)
    | _ => (false, t)
    end in
  match digits None body with
  | None => NaN
  | Some z => toNumber negative z
  end.

(** The decimal digits of a natural number, most significant first. *)
Fixpoint digitsOf (fuel : nat) (n : N) (acc : string) : string :=
  match fuel with
  | O => acc
  | S fuel' =>
      let d := ascii_of_N (48 + n mod 10)%N in
      let acc' := String d acc in
      if (n <? 10)%N then acc' else digitsOf fuel' (n / 10)%N acc'
  end.

(** [String(z)] (the text a template literal inserts for an integer
    number [z]). *)
Definition toString (z : Z) : string :=
  let n := Z.abs_N z in
  let ds := digitsOf (S (N.to_nat (N.log2 n))) n EmptyString in
  if (z <? 0)%Z then String "-" ds else ds.

End JS.


(** ** The regular expressions of the client

    The regular expressions of the client have one shape: a literal, one
    capture group holding a run of a character class, and a literal.
    - in [parseBucketsXml], [<Bucket>], a group and [<\/Bucket>] with the
      [g] flag: the group is the lazy run [[\s\S]*?] of any code unit;
    - in [parseXmlTag], [<${tag}>], a group and [</${tag}>]: the group is
      the greedy run [[^<]*] of code units other than [<].
    The matcher below is the backtracking matcher of ECMAScript on that
    shape. *)

Module Regex.

Record regex : Type := {
  opening : string;
  class : ascii -> bool;
  lazy : bool;
  closing : string
}.

(** Match a literal at the start of [s]; the result is what follows it. *)
Fixpoint literal (p s : string) {struct p} : option string :=
  match p with
  | EmptyString => Some s
  | String a p' =>
      match s with
      | EmptyString => None
      | String b s' => if Ascii.eqb b a then literal p' s' else None
      end
  end.

(** A lazy run of the class, then the closing literal, at the start of
    [s]: the closing literal is tried first, and one more code unit of
    the class is taken only when it fails.  The result is the capture and
    what follows the match. *)
Fixpoint lazyRun (cls : ascii -> bool) (close s : string) {struct s}
  : option (string * string) :=
  match literal close s with
  | Some rest => Some (EmptyString, rest)
  | None =>
      match s with
      | EmptyString => None
      | String c s' =>
          if cls c
          then match lazyRun cls close s' with
               | Some (cap, rest) => Some (String c cap, rest)
               | None => None
               end
          else None
      end
  end.

(** A greedy run of the class, then the closing literal, at the start of
    [s]: one more code unit of the class is taken first, and the closing
    literal is tried where taking more has failed. *)
Fixpoint greedyRun (cls : ascii -> bool) (close s : string) {struct s}
  : option (string * string) :=
  let stop := match literal close s with
              | Some rest => Some (EmptyString, rest)
              | None => None
              end in
  match s with
  | EmptyString => stop
  | String c s' =>
      if cls c
      then match greedyRun cls close s' with
           | Some (cap, rest) => Some (String c cap, rest)
           | None => stop
           end
      else stop
  end.

(** A match that starts at the first code unit of [s]. *)
Definition execAt (re : regex) (s : string) : option (string * string) :=
  match literal (opening re) s with
  | Some s1 =>
      if lazy re then lazyRun (class re) (closing re) s1
      else greedyRun (class re) (closing re) s1
  | None => None
  end.

(** [re.exec(s)], [s.match(re)] for a regular expression without the [g]
    flag: the start positions are tried from left to right.  The result
    is capture group 1 and what follows the match. *)
Fixpoint exec (re : regex) (s : string) {struct s}
  : option (string * string) :=
  match execAt re s with
  | Some r => Some r
  | None =>
      match s with
      | EmptyString => None
      | String _ s' => exec re s'
      end
  end.

(** [s.matchAll(re)] for a regular expression with the [g] flag, as the
    list of the capture groups 1 of the successive matches: each search
    resumes where the previous match ended.  A match of the client's
    expressions holds at least the opening literal, so the search
    resumes strictly further each time; [fuel] bounds the number of
    matches. *)
Fixpoint matchAllFrom (fuel : nat) (re : regex) (s : string)
  : list string :=
  match fuel with
  | O => []
  | S fuel' =>
      match exec re s with
      | None => []
      | Some (cap, rest) => cap :: matchAllFrom fuel' re rest
      end
  end.

Definition matchAll (re : regex) (s : string) : list string :=
  matchAllFrom (S (String.length s)) re s.

Definition anyUnit (c : ascii) : bool := true.

Definition notLt (c : ascii) : bool := negb (Ascii.eqb c "<").

End Regex.

(** ** The platform: exceptions, effects, requests and responses *)

(** What a [throw] or a rejected promise carries: [new Error(message)]
    is what the client throws; a [TypeError] is what [fetch] rejects with
    on a network failure and what the signer throws on a bad header. *)
Inductive exn : Type :=
| Error (message : string)
| TypeError (message : string).

Inductive outcome (A : Type) : Type :=
| Return (a : A)
| Throw (e : exn).
Arguments Return {A} a.
Arguments Throw {A} e.

(** [new Date()] and [new Date(s)] *)
Inductive Date : Type :=
| DateNow
| DateOf (s : string).


(** The [aws] member of the signer's options. *)
Record AwsOptions : Type := {
  signQuery : bool;
  expires : option Z;
  allHeaders : option bool
}.

(** A [Headers] object, as the sequence of (name, value) pairs that
    [entries()] yields. *)
Definition headerList : Type := list (string * string).

(** [headers.get(name)]: header names are matched without regard to
    case. *)
Definition Headers_get (h : headerList) (name : string) : option string :=
  match find (fun e => String.eqb (JS.toLowerCase (fst e))
                                  (JS.toLowerCase name)) h with
  | Some e => Some (snd e)
  | None => None
  end.

(** The result of [awsClient.sign]: the members the client reads. *)
Record SignedRequest : Type := {
  url : string;
  signedHeaders : headerList
}.

(** A [Response]: the members the client reads.  [text] is the outcome of
    [await response.text()]. *)
Record Response : Type := {
  status : Z;
  statusText : string;
  responseHeaders : headerList;
  text : outcome string
}.

(** [response.ok]: the status is in the range 200 to 299. *)
Definition ok (r : Response) : bool :=
  ((200 <=? status r) && (status r <=? 299))%Z.

(** A [Blob]: its bytes and its media type. *)
Record Blob : Type := {
  blobBytes : string;
  blobType : string
}.

(** [blob.size] *)
Definition blobSize (b : Blob) : Z := Z.of_nat (String.length (blobBytes b)).

(** The UTF-8 encoding of a string of code units below 256, which is what
    [new Blob([s])] holds for a string [s]. *)
Fixpoint utf8 (s : string) : string :=
  match s with
  | EmptyString => EmptyString
  | String c s' =>
      let n := nat_of_ascii c in
      if (n <? 128)%nat then String c (utf8 s')
      else String (ascii_of_nat (192 + n / 64))
             (String (ascii_of_nat (128 + n mod 64)) (utf8 s'))
  end.

(** The [file] argument of [uploadFile]:
    [Blob | File | ArrayBuffer | string] (a [File] is a [Blob]). *)
Inductive FileContent : Type :=
| FileBlob (b : Blob)
| FileArrayBuffer (bytes : string)
| FileString (s : string).

(** The options handed to [awsClient.sign]. *)
Record RequestInit : Type := {
  method : string;
  initHeaders : option (gmap string string);
  initBody : option Blob;
  aws : AwsOptions
}.

(** The options handed to [fetch]. *)
Record FetchInit : Type := {
  fetchMethod : string;
  fetchHeaders : headerList;
  fetchBody : option Blob
}.

(** The calls of a run, in order. *)
Inductive event : Type :=
| Signed (target : string) (init : RequestInit)
| Fetched (target : string) (init : FetchInit).

(** An asynchronous computation: the calls it has made and how it ended. *)
Definition IO (A : Type) : Type := (list event * outcome A)%type.

Definition ret {A : Type} (a : A) : IO A := ([], Return a).

Definition throw {A : Type} (e : exn) : IO A := ([], Throw e).

Definition bind {A B : Type} (m : IO A) (k : A -> IO B) : IO B :=
  match m with
  | (t, Return a) => let (t', r) := k a in ((t ++ t')%list, r)
  | (t, Throw e) => (t, Throw e)
  end.

(** [try { m } catch { handler }] *)
Definition tryCatch {A : Type} (m : IO A) (handler : IO A) : IO A :=
  match m with
  | (t, Return a) => (t, Return a)
  | (t, Throw _) => let (t', r) := handler in ((t ++ t')%list, r)
  end.

Declare Scope io_scope.
Delimit Scope io_scope with io.
Notation "'let*' x ':=' m 'in' k" := (bind m (fun x => k))
  (at level 10, x name, m at level 100, k at level 200) : io_scope.

(** [await response.text()] *)
Definition awaitText (r : Response) : IO string := ([], text r).

(** ** Types of the package ([types.ts]) *)

Record PresignedUploadUrlOptions : Type := {
  opt_key : string;
  opt_contentType : string;
  opt_metadata : option (list (string * string));
  opt_expiresIn : option Z;
  opt_maxFileSize : option Z;
  opt_allowedContentTypes : option (list string)
}.

Record PresignedDownloadUrlOptions : Type := {
  dl_expiresIn : option Z
}.

Record PresignedUrlResult : Type := {
  res_url : string;
  res_key : string;
  res_contentType : string;
  res_expiresIn : Z;
  res_metadata : option (list (string * string));
  res_maxFileSize : option Z;
  res_allowedContentTypes : option (list string)
}.

Record UploadFileOptions : Type := {
  up_contentType : string;
  up_metadata : option (list (string * string))
}.

Record UploadResult : Type := {
  upl_key : string;
  upl_contentType : string;
  upl_fileSize : Z;
  upl_etag : option string
}.

(** [R2Object & { body: Response }] *)
Record R2Object : Type := {
  obj_key : string;
  obj_contentType : option string;
  obj_size : JS.number;
  obj_lastModified : Date;
  obj_etag : option string;
  obj_metadata : option (gmap string string);
  obj_body : Response
}.

Record BucketInfo : Type := {
  bucket_name : string;
  bucket_creationDate : option Date;
  bucket_location : string
}.

(** ** Pure parts of [R2Bucket] *)

(** The callback of [allowedContentTypes.some] in [presignedUploadUrl]. *)
Definition matchesPattern (contentType pattern : string) : bool :=
  if JS.endsWith pattern "/*"
  then
    let baseType := JS.slice pattern 0 (-2) in
    JS.startsWith contentType (baseType ++ "/")
  else String.eqb contentType pattern.

(** [allowedContentTypes.some(...)] *)
Definition isAllowed (allowedContentTypes : list string)
  (contentType : string) : bool :=
  existsb (matchesPattern contentType) allowedContentTypes.

(** The message of the error thrown for a content type that is not
    allowed. *)
Definition notAllowedMessage (contentType : string)
  (allowedContentTypes : list string) : string :=
  "Content type '" ++ contentType ++ "' is not allowed. Allowed types: "
  ++ JS.join allowedContentTypes ", ".

(** [headerKey]: the header name that carries the metadata key [metaKey]
    ([presignedUploadUrl] and [uploadFile] hold the same expression). *)
Definition headerKey (metaKey : string) : string :=
  if JS.startsWith metaKey "x-amz-meta-" then metaKey
  else "x-amz-meta-" ++ metaKey.

(** [o[k] = v] on an ordinary object whose properties are strings: the
    property is created or replaced, except for the name [__proto__],
    which is the accessor of [Object.prototype] and ignores a string. *)
Definition setProperty (o : gmap string string) (k v : string)
  : gmap string string :=
  if String.eqb k "__proto__" then o else <[k := v]> o.

(** The body of the loop over [Object.entries(metadata)], in
    [presignedUploadUrl] and in [uploadFile]. *)
Definition addMetadataHeader (headers : gmap string string)
  (entry : string * string) : gmap string string :=
  let '(metaKey, metaValue) := entry in
  setProperty headers (headerKey metaKey) metaValue.

(** The [headers] object of [presignedUploadUrl] and of [uploadFile]: the
    content type, then one property per entry of [metadata], in the order
    of [Object.entries(metadata)]. *)
Definition uploadHeaders (contentType : string)
  (metadata : list (string * string)) : gmap string string :=
  fold_left addMetadataHeader metadata {[ "Content-Type" := contentType ]}.

(** The body of the loop of [getObject] over
    [response.headers.entries()]. *)
Definition collectMetadata (metadata : gmap string string)
  (entry : string * string) : gmap string string :=
  let '(headerName, headerValue) := entry in
  if JS.startsWith (JS.toLowerCase headerName) "x-amz-meta-"
  then
    let metaKey :=
      JS.replace (JS.toLowerCase headerName) "x-amz-meta-" "" in
    setProperty metadata metaKey headerValue
  else metadata.

(** The [metadata] object of [getObject] once the loop has run. *)
Definition extractMetadata (entries : headerList) : gmap string string :=
  fold_left collectMetadata entries ∅.

(** The quotation mark. *)
Definition dquote : ascii := "034"%char.

(** The [etag] of [uploadFile] and [getObject]: the [ETag] header with
    every quotation mark removed (a [replace] with the [g] flag), or
    [undefined] when the header is absent or nothing is left. *)
Definition etagOf (h : headerList) : option string :=
  JS.orUndefined
    (match Headers_get h "ETag" with
     | Some v => Some (JS.removeAll dquote v)
     | None => None
     end).

(** [contentLength ? parseInt(contentLength, 10) : 0] *)
Definition sizeOf (contentLength : option string) : JS.number :=
  match contentLength with
  | Some v => if JS.truthy v then JS.parseInt v else JS.Num 0
  | None => JS.Num 0
  end.

(** [lastModified ? new Date(lastModified) : new Date()] *)
Definition lastModifiedOf (lastModified : option string) : Date :=
  match lastModified with
  | Some v => if JS.truthy v then DateOf v else DateNow
  | None => DateNow
  end.

(** The object that [getObject] returns for a successful response. *)
Definition describeObject (key : string) (response : Response) : R2Object :=
  let h := responseHeaders response in
  let contentType := JS.orUndefined (Headers_get h "Content-Type") in
  let contentLength := Headers_get h "Content-Length" in
  let lastModified := Headers_get h "Last-Modified" in
  let etag := etagOf h in
  let metadata := extractMetadata h in
  {| obj_key := key;
     obj_contentType := contentType;
     obj_size := sizeOf contentLength;
     obj_lastModified := lastModifiedOf lastModified;
     obj_etag := etag;
     obj_metadata := if (0 <? size metadata)%nat then Some metadata else None;
     obj_body := response |}.

(** The conversion of [file] to a [Blob] at the start of [uploadFile]. *)
Definition toBlob (file : FileContent) (contentType : string) : Blob :=
  match file with
  | FileBlob b => b
  | FileArrayBuffer bytes => {| blobBytes := bytes; blobType := contentType |}
  | FileString s => {| blobBytes := utf8 s; blobType := contentType |}
  end.

(** ** The operations of [R2Bucket] and [R2Client] *)

(** The fields of an [R2Bucket] other than the signer. *)
Record R2Bucket : Type := {
  name : string;
  baseUrl : string
}.

(** The field of an [R2Client] other than the signer. *)
Record R2Client : Type := {
  clientBaseUrl : string
}.

(** The constructor of [R2Client] derives the base URL from the account
    identifier. *)
Definition newR2Client (accountId : string) : R2Client :=
  {| clientBaseUrl := "https://" ++ accountId ++ ".r2.cloudflarestorage.com" |}.

(** [client.bucket(name)] *)
Definition bucket (self : R2Client) (bucketName : string) : R2Bucket :=
  {| name := bucketName; baseUrl := clientBaseUrl self |}.

(** The options of a signature carried in headers
    ([aws: { signQuery: false }]). *)
Definition headerSigned (m : string) : RequestInit :=
  {| method := m;
     initHeaders := None;
     initBody := None;
     aws := {| signQuery := false; expires := None; allHeaders := None |} |}.

(** [parseXmlTag(xml, tag)]: the trimmed text of the first
    [<tag>...</tag>] whose text holds no [<], or [null]. *)
Definition parseXmlTag (xml tag : string) : option string :=
  let re := {| Regex.opening := "<" ++ tag ++ ">";
               Regex.class := Regex.notLt;
               Regex.lazy := false;
               Regex.closing := "</" ++ tag ++ ">" |} in
  match Regex.exec re xml with
  | Some (capture, _) => Some (JS.trim capture)
  | None => None
  end.

(** The regular expression of [parseBucketsXml]. *)
Definition bucketPattern : Regex.regex :=
  {| Regex.opening := "<Bucket>";
     Regex.class := Regex.anyUnit;
     Regex.lazy := true;
     Regex.closing := "</Bucket>" |}.

(** The body of the loop of [parseBucketsXml]: [buckets] after the match
    whose capture group is [bucketXml]. *)
Definition pushBucket (buckets : list BucketInfo) (bucketXml : string)
  : list BucketInfo :=
  let name := parseXmlTag bucketXml "Name" in
  let creationDateStr := parseXmlTag bucketXml "CreationDate" in
  match name with
  | Some n =>
      if JS.truthy n
      then buckets ++
           [ {| bucket_name := n;
                bucket_creationDate :=
                  match creationDateStr with
                  | Some d => if JS.truthy d then Some (DateOf d) else None
                  | None => None
                  end;
                bucket_location := "auto" |} ]
      else buckets
  | None => buckets
  end.

(** [parseBucketsXml(xml)] *)
Definition parseBucketsXml (xml : string) : list BucketInfo :=
  fold_left pushBucket (Regex.matchAll bucketPattern xml) [].

Section Operations.

Local Open Scope io_scope.

(** [awsClient.sign(url, init)] and [fetch(url, init)] as the
    environment answers them. *)
Variable sign : string -> RequestInit -> outcome SignedRequest.
Variable fetch : string -> FetchInit -> outcome Response.

Definition awsSign (target : string) (init : RequestInit)
  : IO SignedRequest :=
  ([Signed target init], sign target init).

Definition doFetch (target : string) (init : FetchInit) : IO Response :=
  ([Fetched target init], fetch target init).

(** [`${this.baseUrl}/${this.name}/${key}`] *)
Definition objectUrl (self : R2Bucket) (key : string) : string :=
  baseUrl self ++ "/" ++ name self ++ "/" ++ key.

Definition presignedUploadUrl (self : R2Bucket)
  (options : PresignedUploadUrlOptions) : IO PresignedUrlResult :=
  let key := opt_key options in
  let contentType := opt_contentType options in
  let metadata := default [] (opt_metadata options) in
  let expiresIn := default 86400%Z (opt_expiresIn options) in
  let maxFileSize := opt_maxFileSize options in
  let allowedContentTypes := opt_allowedContentTypes options in
  let* _ :=
    match allowedContentTypes with
    | Some allowed =>
        if (0 <? length allowed)%nat
        then
          let isAllowed := isAllowed allowed contentType in
          if negb isAllowed
          then throw (Error (notAllowedMessage contentType allowed))
          else ret tt
        else ret tt
    | None => ret tt
    end in
  let headers := uploadHeaders contentType metadata in
  let bucketUrl := objectUrl self key in
  let* signedRequest :=
    awsSign bucketUrl
      {| method := "PUT";
         initHeaders := Some headers;
         initBody := None;
         aws := {| signQuery := true;
                   expires := Some expiresIn;
                   allHeaders := Some true |} |} in
  ret {| res_url := url signedRequest;
         res_key := key;
         res_contentType := contentType;
         res_expiresIn := expiresIn;
         res_metadata := opt_metadata options;
         res_maxFileSize :=
           match maxFileSize with
           | Some m => if (m =? 0)%Z then None else Some m
           | None => None
           end;
         res_allowedContentTypes := allowedContentTypes |}.

Definition presignedDownloadUrl (self : R2Bucket) (key : string)
  (options : PresignedDownloadUrlOptions) : IO PresignedUrlResult :=
  let expiresIn := default 3600%Z (dl_expiresIn options) in
  let bucketUrl := objectUrl self key in
  let* signedRequest :=
    awsSign bucketUrl
      {| method := "GET";
         initHeaders := None;
         initBody := None;
         aws := {| signQuery := true;
                   expires := Some expiresIn;
                   allHeaders := None |} |} in
  ret {| res_url := url signedRequest;
         res_key := key;
         res_contentType := "";
         res_expiresIn := expiresIn;
         res_metadata := None;
         res_maxFileSize := None;
         res_allowedContentTypes := None |}.

(** [exists()] *)
Definition exists_ (self : R2Bucket) : IO bool :=
  tryCatch
    (let bucketUrl := baseUrl self ++ "/" ++ name self ++ "/" in
     let* signedRequest := awsSign bucketUrl (headerSigned "HEAD") in
     let* response :=
       doFetch (url signedRequest)
         {| fetchMethod := "HEAD";
            fetchHeaders := signedHeaders signedRequest;
            fetchBody := None |} in
     ret (ok response))
    (ret false).

Definition objectExists (self : R2Bucket) (key : string) : IO bool :=
  tryCatch
    (let bucketUrl := objectUrl self key in
     let* signedRequest := awsSign bucketUrl (headerSigned "HEAD") in
     let* response :=
       doFetch (url signedRequest)
         {| fetchMethod := "HEAD";
            fetchHeaders := signedHeaders signedRequest;
            fetchBody := None |} in
     ret (ok response))
    (ret false).

Definition uploadFile (self : R2Bucket) (key : string)
  (file : FileContent) (options : UploadFileOptions) : IO UploadResult :=
  let contentType := up_contentType options in
  let metadata := default [] (up_metadata options) in
  let blob := toBlob file contentType in
  let headers := uploadHeaders contentType metadata in
  let bucketUrl := objectUrl self key in
  let* signedRequest :=
    awsSign bucketUrl
      {| method := "PUT";
         initHeaders := Some headers;
         initBody := Some blob;
         aws := {| signQuery := false;
                   expires := None;
                   allHeaders := Some true |} |} in
  let* response :=
    doFetch (url signedRequest)
      {| fetchMethod := "PUT";
         fetchHeaders := signedHeaders signedRequest;
         fetchBody := Some blob |} in
  if negb (ok response)
  then throw (Error ("Upload failed: " ++ JS.toString (status response)
                     ++ " " ++ statusText response))
  else
    let etag := etagOf (responseHeaders response) in
    ret {| upl_key := key;
           upl_contentType := contentType;
           upl_fileSize := blobSize blob;
           upl_etag := etag |}.

Definition deleteObject (self : R2Bucket) (key : string) : IO unit :=
  let bucketUrl := objectUrl self key in
  let* signedRequest := awsSign bucketUrl (headerSigned "DELETE") in
  let* response :=
    doFetch (url signedRequest)
      {| fetchMethod := "DELETE";
         fetchHeaders := signedHeaders signedRequest;
         fetchBody := None |} in
  if negb (ok response) && negb (status response =? 404)%Z
  then throw (Error ("Delete failed: " ++ JS.toString (status response)
                     ++ " " ++ statusText response))
  else ret tt.

Definition getObject (self : R2Bucket) (key : string) : IO R2Object :=
  let bucketUrl := objectUrl self key in
  let* signedRequest := awsSign bucketUrl (headerSigned "GET") in
  let* response :=
    doFetch (url signedRequest)
      {| fetchMethod := "GET";
         fetchHeaders := signedHeaders signedRequest;
         fetchBody := None |} in
  if negb (ok response)
  then throw (Error ("Get object failed: " ++ JS.toString (status response)
                     ++ " " ++ statusText response))
  else ret (describeObject key response).

Definition listBuckets (self : R2Client) : IO (list BucketInfo) :=
  let* signedRequest := awsSign (clientBaseUrl self) (headerSigned "GET") in
  let* response :=
    doFetch (url signedRequest)
      {| fetchMethod := "GET";
         fetchHeaders := signedHeaders signedRequest;
         fetchBody := None |} in
  if negb (ok response)
  then throw (Error ("List buckets failed: "
                     ++ JS.toString (status response)
                     ++ " " ++ statusText response))
  else
    let* xml := awaitText response in
    ret (parseBucketsXml xml).

End Operations.

(** ** The rest of [R2Bucket] and [R2Client] *)

(** [BucketDetails]: what [getInfo] returns. *)
Record BucketDetails : Type := {
  details_name : string;
  details_creationDate : option Date;
  details_location : string
}.

(** [getName()] *)
Definition getName (self : R2Bucket) : string := name self.

(** [getBaseUrl()] *)
Definition getBaseUrl (self : R2Client) : string := clientBaseUrl self.

(** The regular expression of [parseLocationXml]. *)
Definition locationPattern : Regex.regex :=
  {| Regex.opening := "<LocationConstraint>";
     Regex.class := Regex.notLt;
     Regex.lazy := false;
     Regex.closing := "</LocationConstraint>" |}.

(** [parseLocationXml(xml)]: [xml.match(...)?.[1]?.trim()], then
    [location || 'auto']. *)
Definition parseLocationXml (xml : string) : string :=
  let location :=
    match Regex.exec locationPattern xml with
    | Some (capture, _) => Some (JS.trim capture)
    | None => None
    end in
  match location with
  | Some l => if JS.truthy l then l else "auto"
  | None => "auto"
  end.

Section Information.

Local Open Scope io_scope.

Variable sign : string -> RequestInit -> outcome SignedRequest.
Variable fetch : string -> FetchInit -> outcome Response.

(** [getInfo()] *)
Definition getInfo (self : R2Bucket) : IO BucketDetails :=
  let bucketUrl := baseUrl self ++ "/" ++ name self ++ "?location" in
  let* signedRequest := awsSign sign bucketUrl (headerSigned "GET") in
  let* response :=
    doFetch fetch (url signedRequest)
      {| fetchMethod := "GET";
         fetchHeaders := signedHeaders signedRequest;
         fetchBody := None |} in
  if negb (ok response)
  then throw (Error ("Get bucket info failed: "
                     ++ JS.toString (status response)
                     ++ " " ++ statusText response))
  else
    let* xml := awaitText response in
    let location := parseLocationXml xml in
    ret {| details_name := name self;
           details_creationDate := None;
           details_location := location |}.

End Information.

(** ** [getMimeType] of the upload tool ([App.tsx]), which chooses the
    content type that the tool hands to [uploadFile] *)

(** [s.split(c)] for a separator of one code unit. *)
Fixpoint split (s : string) (c : ascii) : list string :=
  match s with
  | EmptyString => [EmptyString]
  | String a s' =>
      if Ascii.eqb a c then EmptyString :: split s' c
      else
        match split s' c with
        | segment :: rest => String a segment :: rest
        | [] => [String a EmptyString]
        end
  end.

(** [xs.pop()]: the last element, or [undefined]. *)
Fixpoint pop (xs : list string) : option string :=
  match xs with
  | [] => None
  | [x] => Some x
  | _ :: rest => pop rest
  end.

(** What reading a property of an object literal whose own properties are
    strings can give: an own string, or a member that the object inherits
    from [Object.prototype]. *)
Inductive property : Type :=
| OwnString (s : string)
| Inherited (member : string).

(** The names of the members of [Object.prototype]. *)
Definition objectPrototype : list string :=
  [ "constructor"; "hasOwnProperty"; "isPrototypeOf";
    "propertyIsEnumerable"; "toLocaleString"; "toString"; "valueOf";
    "__proto__"; "__defineGetter__"; "__defineSetter__";
    "__lookupGetter__"; "__lookupSetter__" ].

(** [o[k]] on an object literal with the own properties [own]. *)
Definition getProperty (own : list (string * string)) (k : string)
  : option property :=
  match find (fun e => String.eqb (fst e) k) own with
  | Some e => Some (OwnString (snd e))
  | None =>
      if existsb (String.eqb k) objectPrototype then Some (Inherited k)
      else None
  end.

(** The table of [getMimeType]. *)
Definition mimeTypes : list (string * string) :=
  [ ("jpg", "image/jpeg"); ("jpeg", "image/jpeg"); ("png", "image/png");
    ("gif", "image/gif"); ("webp", "image/webp"); ("svg", "image/svg+xml");
    ("pdf", "application/pdf"); ("json", "application/json");
    ("txt", "text/plain"); ("html", "text/html"); ("css", "text/css");
    ("js", "application/javascript"); ("ts", "application/typescript");
    ("zip", "application/zip"); ("tar", "application/x-tar");
    ("gz", "application/gzip"); ("bin", "application/octet-stream");
    ("pkg", "application/octet-stream"); ("exe", "application/octet-stream");
    ("mp4", "video/mp4"); ("mp3", "audio/mpeg"); ("wav", "audio/wav") ].

(** [filename.split('.').pop()?.toLowerCase() || ''] *)
Definition extensionOf (filename : string) : string :=
  match pop (split filename ".") with
  | Some last => JS.toLowerCase last
  | None => EmptyString
  end.

(** [getMimeType(filename)]: [mimeTypes[ext] || 'application/octet-stream'].
    An inherited member is an object, hence truthy, and is returned as it
    is. *)
Definition getMimeType (filename : string) : property :=
  let ext := extensionOf filename in
  match getProperty mimeTypes ext with
  | Some (OwnString s) =>
      if JS.truthy s then OwnString s
      else OwnString "application/octet-stream"
  | Some (Inherited member) => Inherited member
  | None => OwnString "application/octet-stream"
  end.

(** ** Definitions used to state the properties *)

(** The matching rule in the words of the specification: a pattern that
    ends in [/*] accepts the content types that start with the pattern's
    prefix up to and including the [/]; any other pattern accepts itself
    only. *)
Definition specAccepts (pattern contentType : string) : Prop :=
  (exists base rest,
      pattern = base ++ "/*" /\ contentType = base ++ "/" ++ rest)
  \/ ((forall base, pattern <> base ++ "/*") /\ contentType = pattern).





(** [occursIn p s]: the string [p] occurs in [s] at some position. *)
Fixpoint occursIn (p s : string) {struct s} : bool :=
  JS.startsWith s p ||
  match s with
  | EmptyString => false
  | String _ s' => occursIn p s'
  end.

(** [hasUnit c s]: the code unit [c] occurs in [s]. *)
Fixpoint hasUnit (c : ascii) (s : string) : bool :=
  match s with
  | EmptyString => false
  | String a s' => Ascii.eqb a c || hasUnit c s'
  end.

(** A ListBuckets body seen as its [<Bucket>] blocks: each block is the
    text that precedes it and its content, and [tail] is what follows the
    last block. *)
Fixpoint document (blocks : list (string * string)) (tail : string)
  : string :=
  match blocks with
  | [] => tail
  | (before, content) :: more =>
      before ++ "<Bucket>" ++ content ++ "</Bucket>" ++ document more tail
  end.

(** The content of a well-formed block: a name and a creation date. *)
Definition wellFormed (n d : string) : string :=
  "<Name>" ++ n ++ "</Name>" ++ "<CreationDate>" ++ d ++ "</CreationDate>".

(** The descriptor that a block with content [bucketXml] contributes to
    the result of [listBuckets], if any: a block contributes when
    [parseXmlTag] finds a [<Name>] in it whose trimmed text is not
    empty. *)
Definition describeBlock (bucketXml : string) : option BucketInfo :=
  match parseXmlTag bucketXml "Name" with
  | Some n =>
      if String.eqb n "" then None
      else Some {| bucket_name := n;
                   bucket_creationDate :=
                     match parseXmlTag bucketXml "CreationDate" with
                     | Some d => if String.eqb d "" then None
                                 else Some (DateOf d)
                     | None => None
                     end;
                   bucket_location := "auto" |}
  | None => None
  end.

(** The service as far as metadata goes: the response to a GET carries
    the metadata headers that the PUT has sent, and no other, with the
    same values; the case of the names is the service's choice. *)
Definition storesMetadata (sent : gmap string string)
  (received : headerList) : Prop :=
  (forall n v,
      sent !! n = Some v ->
      JS.startsWith (JS.toLowerCase n) "x-amz-meta-" = true ->
      exists n', In (n', v) received /\
                 JS.toLowerCase n' = JS.toLowerCase n)
  /\ (forall n' v,
         In (n', v) received ->
         JS.startsWith (JS.toLowerCase n') "x-amz-meta-" = true ->
         exists n, sent !! n = Some v /\
                   JS.toLowerCase n = JS.toLowerCase n').

(** ** Sample environments and inputs *)

(** A signer that returns the URL it is given and no header. *)
Definition signEcho (target : string) (init : RequestInit)
  : outcome SignedRequest :=
  Return {| url := target; signedHeaders := [] |}.

(** A signer and a network that fail. *)
Definition signFails (target : string) (init : RequestInit)
  : outcome SignedRequest :=
  Throw (TypeError "Invalid header name").

Definition fetchFails (target : string) (init : FetchInit)
  : outcome Response :=
  Throw (TypeError "fetch failed").

(** A network that answers every request with [r]. *)
Definition respond (r : Response) (target : string) (init : FetchInit)
  : outcome Response :=
  Return r.

Definition gallery : R2Bucket :=
  {| name := "gallery"; baseUrl := "https://abc123.r2.cloudflarestorage.com" |}.

Definition sampleResponse (code : Z) (reason : string) (h : headerList)
  (content : string) : Response :=
  {| status := code;
     statusText := reason;
     responseHeaders := h;
     text := Return content |}.

Definition account : R2Client := newR2Client "abc123".

(** The options of the scenario of the specification: a PDF offered where
    only images are allowed. *)
Definition pdfUpload : PresignedUploadUrlOptions :=
  {| opt_key := "a.png";
     opt_contentType := "application/pdf";
     opt_metadata := None;
     opt_expiresIn := None;
     opt_maxFileSize := None;
     opt_allowedContentTypes := Some ["image/*"] |}.

Definition pngUpload : PresignedUploadUrlOptions :=
  {| opt_key := "a.png";
     opt_contentType := "image/png";
     opt_metadata := Some [("owner", "alice")];
     opt_expiresIn := None;
     opt_maxFileSize := None;
     opt_allowedContentTypes := Some ["image/*"] |}.

(** [abc123] between quotation marks. *)
Definition quotedTag : string := String dquote ("abc123" ++ String dquote "").

(** A ListBuckets body with two well-formed blocks and, between them, a
    block without a name. *)
Definition twoBuckets : string :=
  "<ListAllMyBucketsResult><Buckets>"
  ++ "<Bucket><Name>gallery</Name>"
  ++ "<CreationDate>2024-01-01T00:00:00.000Z</CreationDate></Bucket>"
  ++ "<Bucket><CreationDate>2024-02-01T00:00:00.000Z</CreationDate></Bucket>"
  ++ "<Bucket><Name>uploads</Name>"
  ++ "<CreationDate>2024-03-01T00:00:00.000Z</CreationDate></Bucket>"
  ++ "</Buckets></ListAllMyBucketsResult>".

(** A ListBuckets body whose only block has a [<Name>] tag with no
    text. *)
Definition blankName : string :=
  "<ListAllMyBucketsResult><Buckets>"
  ++ "<Bucket><Name></Name>"
  ++ "<CreationDate>2024-01-01T00:00:00.000Z</CreationDate></Bucket>"
  ++ "</Buckets></ListAllMyBucketsResult>".

(** A mapping in which two keys give the same header name. *)
Definition clashing : list (string * string) :=
  [("owner", "alice"); ("x-amz-meta-owner", "bob")].

(** ** Definitions used to state the further properties *)

(** A signed request followed by the fetch of what the signer returned,
    then [k]: the shape of the operations that reach the network. *)
Definition exchange {B : Type}
  (sign : string -> RequestInit -> outcome SignedRequest)
  (fetch : string -> FetchInit -> outcome Response)
  (target : string) (init : RequestInit)
  (k : Response -> IO B) : IO B :=
  bind (awsSign sign target init)
    (fun signedRequest =>
       bind (doFetch fetch (url signedRequest)
               {| fetchMethod := method init;
                  fetchHeaders := signedHeaders signedRequest;
                  fetchBody := initBody init |})
            k).

(** A trace with at most one signature and at most one fetch, the fetch
    coming after the signature and sending, to the URL and with the
    headers that the signer returned, the method and the body that were
    signed. *)
Definition oneExchange
  (sign : string -> RequestInit -> outcome SignedRequest)
  (trace : list event) : Prop :=
  trace = []
  \/ (exists target init, trace = [Signed target init])
  \/ (exists target init sr,
         sign target init = Return sr /\
         trace = [Signed target init;
                  Fetched (url sr)
                    {| fetchMethod := method init;
                       fetchHeaders := signedHeaders sr;
                       fetchBody := initBody init |}]).

(** A computation that hands on the failures of the signer and of the
    network: when the call to the signer throws, nothing else is called
    and the same exception is thrown; when the fetch throws, the same
    exception is thrown. *)
Definition propagates {B : Type}
  (sign : string -> RequestInit -> outcome SignedRequest)
  (fetch : string -> FetchInit -> outcome Response)
  (m : IO B) : Prop :=
  (forall target init rest e,
      fst m = Signed target init :: rest ->
      sign target init = Throw e ->
      rest = [] /\ snd m = Throw e)
  /\
  (forall target init target' init' rest e,
      fst m = Signed target init :: Fetched target' init' :: rest ->
      fetch target' init' = Throw e ->
      rest = [] /\ snd m = Throw e).

(** The message of the error thrown for a response that is not a
    success. *)
Definition failedMessage (what : string) (r : Response) : string :=
  what ++ " failed: " ++ JS.toString (status r) ++ " " ++ statusText r.

(** A computation that throws the error named [what] when the fetch is
    answered with a status outside 200..299. *)
Definition rejectsFailure {B : Type}
  (fetch : string -> FetchInit -> outcome Response)
  (what : string) (m : IO B) : Prop :=
  forall target init target' init' rest r,
    fst m = Signed target init :: Fetched target' init' :: rest ->
    fetch target' init' = Return r ->
    ~ (200 <= status r <= 299)%Z ->
    snd m = Throw (Error (failedMessage what r)).

(** [options] with the size hint replaced. *)
Definition withMaxFileSize (options : PresignedUploadUrlOptions)
  (maxFileSize : option Z) : PresignedUploadUrlOptions :=
  {| opt_key := opt_key options;
     opt_contentType := opt_contentType options;
     opt_metadata := opt_metadata options;
     opt_expiresIn := opt_expiresIn options;
     opt_maxFileSize := maxFileSize;
     opt_allowedContentTypes := opt_allowedContentTypes options |}.

(** Every call to the signer in [trace] satisfies [p]. *)
Definition signedWith (p : string -> RequestInit -> Prop)
  (trace : list event) : Prop :=
  forall target init, In (Signed target init) trace -> p target init.

(** A request for [m], under [prefix], signed in the query string
    ([query = true]) or in the headers. *)
Definition requestOf (prefix m : string) (query : bool)
  (target : string) (init : RequestInit) : Prop :=
  JS.startsWith target prefix = true /\
  method init = m /\
  signQuery (aws init) = query.

(** The descriptor of a well-formed block with the name [n] and the
    creation date [d]. *)
Definition wellFormedInfo (n d : string) : BucketInfo :=
  {| bucket_name := JS.trim n;
     bucket_creationDate :=
       if String.eqb (JS.trim d) "" then None else Some (DateOf (JS.trim d));
     bucket_location := "auto" |}.

(** The number of code units of [s] that are not ASCII. *)
Fixpoint nonAscii (s : string) : nat :=
  match s with
  | EmptyString => 0
  | String c s' =>
      (if (nat_of_ascii c <? 128)%nat then 0 else 1) + nonAscii s'
  end.

(** A signer that answers with the URL it is given, followed by a query
    string, and with an authorization header. *)
Definition signQueryEcho (target : string) (init : RequestInit)
  : outcome SignedRequest :=
  Return {| url := target ++ "?X-Amz-Signature=0";
            signedHeaders := [("authorization", "AWS4-HMAC-SHA256")] |}.

(** ** The expiry and the signer

    The two pre-signing functions hand [expiresIn] to the signer as a
    member [expires] of [aws], through a type assertion ([as]), for the
    options of the signer declare no such member.  [aws4fetch] reads
    [signQuery] and [allHeaders] there; it reads no [expires], and with
    [signQuery] it writes [X-Amz-Expires=86400] into the query of the
    URL unless the URL to sign carries that parameter already. *)

(** [init] with another [expires] member. *)
Definition withExpires (init : RequestInit) (e : option Z) : RequestInit :=
  {| method := method init;
     initHeaders := initHeaders init;
     initBody := initBody init;
     aws := {| signQuery := signQuery (aws init);
               expires := e;
               allHeaders := allHeaders (aws init) |} |}.

(** A signer that does not read the [expires] member: its answer is the
    same whatever that member is. *)
Definition ignoresExpires
  (sign : string -> RequestInit -> outcome SignedRequest) : Prop :=
  forall target init e, sign target (withExpires init e) = sign target init.

(** [options] with another [expiresIn]. *)
Definition withExpiresIn (options : PresignedUploadUrlOptions)
  (expiresIn : option Z) : PresignedUploadUrlOptions :=
  {| opt_key := opt_key options;
     opt_contentType := opt_contentType options;
     opt_metadata := opt_metadata options;
     opt_expiresIn := expiresIn;
     opt_maxFileSize := opt_maxFileSize options;
     opt_allowedContentTypes := opt_allowedContentTypes options |}.

(** A signer that treats the expiry as [aws4fetch] does: a URL signed in
    the query is given a validity of 86400 seconds, and [expires] is not
    read.  (The other parameters of the query are left out.) *)
Definition signDay (target : string) (init : RequestInit)
  : outcome SignedRequest :=
  Return {| url := if signQuery (aws init)
                   then target ++ "?X-Amz-Expires=86400"
                   else target;
            signedHeaders := [] |}.

(** * Properties *)

(** ** Strings *)

Lemma append_nil_r (s : string) : s ++ "" = s.
Proof. induction s as [|c s IH]; simpl; [reflexivity | now rewrite IH]. Qed.

Lemma append_assoc (a b c : string) : (a ++ b) ++ c = a ++ b ++ c.
Proof. induction a as [|x a IH]; simpl; [reflexivity | now rewrite IH]. Qed.

Lemma length_append (a b : string) :
  String.length (a ++ b) = String.length a + String.length b.
Proof. induction a as [|x a IH]; simpl; [reflexivity | now rewrite IH]. Qed.

Lemma startsWith_append (p r : string) : JS.startsWith (p ++ r) p = true.
Proof.
  induction p as [|a p IH]; simpl; [reflexivity|].
  now rewrite Ascii.eqb_refl, IH.
Qed.

Lemma startsWith_inv (s p : string) :
  JS.startsWith s p = true -> exists r, s = p ++ r.
Proof.
  revert s; induction p as [|a p IH]; intros s H; simpl in *.
  - now exists s.
  - destruct s as [|b s]; [discriminate|].
    apply andb_true_iff in H as [Hab H].
    apply Ascii.eqb_eq in Hab; subst b.
    destruct (IH _ H) as [r ->]. now exists r.
Qed.

Lemma startsWith_iff (s p : string) :
  JS.startsWith s p = true <-> exists r, s = p ++ r.
Proof.
  split; [apply startsWith_inv|].
  intros [r ->]; apply startsWith_append.
Qed.

Lemma dropUnits_append (a b : string) :
  JS.dropUnits (String.length a) (a ++ b) = b.
Proof. induction a as [|x a IH]; simpl; [now destruct b | exact IH]. Qed.

Lemma dropUnits_split (n : nat) (s : string) :
  n <= String.length s ->
  exists a, s = a ++ JS.dropUnits n s /\ String.length a = n.
Proof.
  revert s; induction n as [|n IH]; intros s Hn.
  - exists ""; split; [now destruct s | reflexivity].
  - destruct s as [|c s]; simpl in *; [lia|].
    destruct (IH s) as (a & Ha & Hl); [lia|].
    exists (String c a); simpl; split; [now rewrite <- Ha | now rewrite Hl].
Qed.

Lemma endsWith_append (b suf : string) : JS.endsWith (b ++ suf) suf = true.
Proof.
  unfold JS.endsWith. rewrite length_append.
  apply andb_true_iff; split.
  - apply Nat.leb_le; lia.
  - replace (String.length b + String.length suf - String.length suf)
      with (String.length b) by lia.
    rewrite dropUnits_append. apply String.eqb_refl.
Qed.

Lemma endsWith_inv (s suf : string) :
  JS.endsWith s suf = true -> exists b, s = b ++ suf.
Proof.
  unfold JS.endsWith; intros H.
  apply andb_true_iff in H as [Hle Heq].
  apply Nat.leb_le in Hle. apply String.eqb_eq in Heq.
  destruct (dropUnits_split (String.length s - String.length suf) s)
    as (a & Ha & _); [lia|].
  exists a. now rewrite Heq in Ha.
Qed.

Lemma substring_prefix (a b : string) :
  substring 0 (String.length a) (a ++ b) = a.
Proof.
  induction a as [|x a IH]; simpl; [now destruct b | now rewrite IH].
Qed.

(** [pattern.slice(0, -2)] removes the two code units of a [/*] suffix. *)
Lemma slice_wildcard (base : string) :
  JS.slice (base ++ "/*") 0 (-2) = base.
Proof.
  unfold JS.slice, JS.relativeIndex. rewrite length_append. simpl.
  replace (Z.to_nat (Z.max (Z.of_nat (String.length base + 2) + -2) 0))
    with (String.length base) by lia.
  rewrite Nat.sub_0_r. apply substring_prefix.
Qed.

Lemma append_inj_r (a b c : string) : a ++ b = a ++ c -> b = c.
Proof.
  induction a as [|x a IH]; simpl; intros H; [exact H|].
  injection H as H. now apply IH.
Qed.

Lemma lowerUnit_idem (c : ascii) : JS.lowerUnit (JS.lowerUnit c) = JS.lowerUnit c.
Proof. destruct c as [[] [] [] [] [] [] [] []]; reflexivity. Qed.

Lemma toLowerCase_idem (s : string) :
  JS.toLowerCase (JS.toLowerCase s) = JS.toLowerCase s.
Proof.
  induction s as [|c s IH]; simpl; [reflexivity|].
  now rewrite lowerUnit_idem, IH.
Qed.

Lemma toLowerCase_append (a b : string) :
  JS.toLowerCase (a ++ b) = JS.toLowerCase a ++ JS.toLowerCase b.
Proof. induction a as [|x a IH]; simpl; [reflexivity | now rewrite IH]. Qed.

(** Replacing a prefix by the empty string leaves what follows it. *)
Lemma replace_prefix (p r : string) : JS.replace (p ++ r) p "" = r.
Proof.
  destruct (p ++ r) as [|c s] eqn:E; simpl.
  - destruct p; [simpl in E; subst r; reflexivity | discriminate].
  - rewrite <- E. rewrite startsWith_append.
    change (JS.dropUnits (String.length p) (p ++ r) = r).
    apply dropUnits_append.
Qed.

(** ** Content types *)

Lemma matchesPattern_specAccepts (contentType pattern : string) :
  matchesPattern contentType pattern = true <->
  specAccepts pattern contentType.
Proof.
  unfold matchesPattern, specAccepts.
  destruct (JS.endsWith pattern "/*") eqn:E.
  - apply endsWith_inv in E as [base ->].
    rewrite slice_wildcard, startsWith_iff. split.
    + intros [rest ->]. left. exists base, rest.
      now rewrite append_assoc.
    + intros [(b & rest & Hb & ->) | [Hno _]].
      * assert (b = base) as ->.
        { apply (f_equal String.length) in Hb as Hl.
          rewrite !length_append in Hl. simpl in Hl.
          clear -Hb Hl. revert b Hb Hl.
          induction base as [|x base IH]; intros [|y b] Hb Hl;
            simpl in *; try lia; [reflexivity|].
          injection Hb as -> Hb. f_equal. apply IH; [exact Hb | lia]. }
        exists rest. now rewrite append_assoc.
      * now destruct (Hno base).
  - rewrite String.eqb_eq. split.
    + intros ->. right. split; [|reflexivity].
      intros base ->. now rewrite endsWith_append in E.
    + intros [(b & rest & -> & _) | [_ H]]; [|exact H].
      now rewrite endsWith_append in E.
Qed.

(** ** Metadata keys *)

Lemma headerKey_prefixed (metaKey : string) :
  JS.startsWith (headerKey metaKey) "x-amz-meta-" = true.
Proof.
  unfold headerKey.
  destruct (JS.startsWith metaKey "x-amz-meta-") eqn:E; [exact E|].
  apply startsWith_append.
Qed.

Lemma uploadHeaders_from (f : string -> string)
  (Hf : forall k, headerKey (f k) = headerKey k)
  (metadata : list (string * string)) (init : gmap string string) :
  fold_left addMetadataHeader
    (map (fun e => (f (fst e), snd e)) metadata) init =
  fold_left addMetadataHeader metadata init.
Proof.
  revert init; induction metadata as [|[k v] md IH]; intros init; simpl;
    [reflexivity|].
  now rewrite Hf, IH.
Qed.

(** C3.  The ensure-prefixed transform [headerKey] of
    [presignedUploadUrl] and [uploadFile] is idempotent: applied twice it
    gives the header name it gives applied once; and the headers that
    the two operations build do not change when every metadata key is
    normalized beforehand. *)
Theorem headerKey_idempotent :
  (forall metaKey : string,
      headerKey (headerKey metaKey) = headerKey metaKey) /\
  (forall (contentType : string) (metadata : list (string * string)),
      uploadHeaders contentType
        (map (fun e => (headerKey (fst e), snd e)) metadata) =
      uploadHeaders contentType metadata).
Proof.
  assert (H : forall k, headerKey (headerKey k) = headerKey k).
  { intros k. unfold headerKey at 1. now rewrite headerKey_prefixed. }
  split; [exact H|].
  intros ct md. unfold uploadHeaders. now apply uploadHeaders_from.
Qed.

(** ** Effects *)

Section Effects.

Local Open Scope io_scope.

Variable sign : string -> RequestInit -> outcome SignedRequest.
Variable fetch : string -> FetchInit -> outcome Response.

Lemma bind_ret {A B : Type} (a : A) (k : A -> IO B) : bind (ret a) k = k a.
Proof. unfold bind, ret. now destruct (k a). Qed.

Lemma bind_throw {A B : Type} (e : exn) (k : A -> IO B) :
  bind (throw e) k = throw e.
Proof. reflexivity. Qed.

Lemma bind_assoc {A B C : Type} (m : IO A) (k : A -> IO B) (h : B -> IO C) :
  bind (bind m k) h = bind m (fun a => bind (k a) h).
Proof.
  destruct m as [t [a|e]]; simpl; [|reflexivity].
  destruct (k a) as [t1 [b|e1]]; simpl; [|reflexivity].
  destruct (h b) as [t2 r]. now rewrite app_assoc.
Qed.

(** A call to the signer that succeeds, followed by [k]. *)
Lemma bind_awsSign_return {B : Type} target init sr (k : SignedRequest -> IO B) :
  sign target init = Return sr ->
  bind (awsSign sign target init) k =
  (Signed target init :: fst (k sr), snd (k sr)).
Proof. intros H. unfold bind, awsSign. rewrite H. now destruct (k sr). Qed.

Lemma bind_awsSign_throw {B : Type} target init e (k : SignedRequest -> IO B) :
  sign target init = Throw e ->
  bind (awsSign sign target init) k = ([Signed target init], Throw e).
Proof. intros H. unfold bind, awsSign. now rewrite H. Qed.

Lemma bind_doFetch_return {B : Type} target init r (k : Response -> IO B) :
  fetch target init = Return r ->
  bind (doFetch fetch target init) k =
  (Fetched target init :: fst (k r), snd (k r)).
Proof. intros H. unfold bind, doFetch. rewrite H. now destruct (k r). Qed.

Lemma bind_doFetch_throw {B : Type} target init e (k : Response -> IO B) :
  fetch target init = Throw e ->
  bind (doFetch fetch target init) k = ([Fetched target init], Throw e).
Proof. intros H. unfold bind, doFetch. now rewrite H. Qed.

Lemma ok_range (r : Response) :
  ok r = true <-> (200 <= status r <= 299)%Z.
Proof. unfold ok. rewrite andb_true_iff, !Z.leb_le. tauto. Qed.

(** The best-effort HEAD check shared by [exists] and [objectExists]. *)
Lemma head_check (target : string) :
  let m :=
    tryCatch
      (let* signedRequest := awsSign sign target (headerSigned "HEAD") in
       let* response :=
         doFetch fetch (url signedRequest)
           {| fetchMethod := "HEAD";
              fetchHeaders := signedHeaders signedRequest;
              fetchBody := None |} in
       ret (ok response))
      (ret false) in
  exists b : bool,
    snd m = Return b /\
    (b = true <->
     exists sr r,
       sign target (headerSigned "HEAD") = Return sr /\
       fetch (url sr)
         {| fetchMethod := "HEAD";
            fetchHeaders := signedHeaders sr;
            fetchBody := None |} = Return r /\
       (200 <= status r <= 299)%Z).
Proof.
  cbv zeta.
  destruct (sign target (headerSigned "HEAD")) as [sr|e] eqn:Hs.
  - rewrite (bind_awsSign_return _ _ sr _ Hs).
    destruct (fetch (url sr)
                {| fetchMethod := "HEAD";
                   fetchHeaders := signedHeaders sr;
                   fetchBody := None |}) as [r|e] eqn:Hf.
    + rewrite (bind_doFetch_return _ _ r _ Hf). simpl.
      exists (ok r). split; [reflexivity|].
      rewrite ok_range. split.
      * intros H. now exists sr, r.
      * intros (sr' & r' & Hs' & Hf' & H).
        injection Hs' as <-. rewrite Hf in Hf'. now injection Hf' as <-.
    + rewrite (bind_doFetch_throw _ _ e _ Hf). simpl.
      exists false. split; [reflexivity|].
      split; [discriminate|].
      intros (sr' & r' & Hs' & Hf' & _).
      injection Hs' as <-. rewrite Hf in Hf'. discriminate.
  - rewrite (bind_awsSign_throw _ _ e _ Hs). simpl.
    exists false. split; [reflexivity|].
    split; [discriminate|].
    intros (sr' & r' & Hs' & _). discriminate.
Qed.

(** C2.  When [allowedContentTypes] is a non-empty list none of whose
    patterns matches the content type, [presignedUploadUrl] throws an
    [Error] whose message names the rejected content type and the
    allowed types, and the trace is empty: neither the signer nor the
    network has been called. *)
Theorem presignedUploadUrl_rejects :
  forall (self : R2Bucket) (options : PresignedUploadUrlOptions)
         (allowed : list string),
    opt_allowedContentTypes options = Some allowed ->
    allowed <> [] ->
    (forall pattern,
        In pattern allowed ->
        matchesPattern (opt_contentType options) pattern = false) ->
    presignedUploadUrl sign self options =
    ([], Throw (Error ("Content type '" ++ opt_contentType options
                       ++ "' is not allowed. Allowed types: "
                       ++ JS.join allowed ", "))).
Proof.
  intros self options allowed Hsome Hne Hall.
  unfold presignedUploadUrl. rewrite Hsome.
  destruct allowed as [|p ps]; [contradiction|].
  change (0 <? length (p :: ps))%nat with true. cbv iota.
  assert (isAllowed (p :: ps) (opt_contentType options) = false) as ->.
  { unfold isAllowed.
    destruct (existsb _ (p :: ps)) eqn:E; [|reflexivity].
    apply existsb_exists in E as (q & Hin & Hq).
    now rewrite (Hall q Hin) in Hq. }
  reflexivity.
Qed.

(** C4.  [exists()] and [objectExists(key)] never raise: whatever the
    signer and the network do, the result is a boolean, and it is [true]
    exactly when signing has succeeded and the HEAD request has been
    answered with a status from 200 to 299; a thrown exception and any
    other status give [false]. *)
Theorem exists_never_raises :
  forall (self : R2Bucket) (key : string),
    (exists b : bool,
        snd (exists_ sign fetch self) = Return b /\
        (b = true <->
         exists sr r,
           sign (baseUrl self ++ "/" ++ name self ++ "/")
             (headerSigned "HEAD") = Return sr /\
           fetch (url sr)
             {| fetchMethod := "HEAD";
                fetchHeaders := signedHeaders sr;
                fetchBody := None |} = Return r /\
           (200 <= status r <= 299)%Z))
    /\
    (exists b : bool,
        snd (objectExists sign fetch self key) = Return b /\
        (b = true <->
         exists sr r,
           sign (baseUrl self ++ "/" ++ name self ++ "/" ++ key)
             (headerSigned "HEAD") = Return sr /\
           fetch (url sr)
             {| fetchMethod := "HEAD";
                fetchHeaders := signedHeaders sr;
                fetchBody := None |} = Return r /\
           (200 <= status r <= 299)%Z)).
Proof.
  intros self key. split.
  - exact (head_check (baseUrl self ++ "/" ++ name self ++ "/")).
  - exact (head_check (objectUrl self key)).
Qed.

(** C5.  When the DELETE request is answered, [deleteObject(key)]
    completes without raising if the status is from 200 to 299 or is 404,
    and for every other status it throws an [Error] whose message carries
    the status code and the status text. *)
Theorem deleteObject_status :
  forall (self : R2Bucket) (key : string) (sr : SignedRequest)
         (r : Response),
    sign (baseUrl self ++ "/" ++ name self ++ "/" ++ key)
      (headerSigned "DELETE") = Return sr ->
    fetch (url sr)
      {| fetchMethod := "DELETE";
         fetchHeaders := signedHeaders sr;
         fetchBody := None |} = Return r ->
    ((200 <= status r <= 299)%Z \/ status r = 404%Z ->
     snd (deleteObject sign fetch self key) = Return tt)
    /\
    (~ ((200 <= status r <= 299)%Z \/ status r = 404%Z) ->
     snd (deleteObject sign fetch self key) =
     Throw (Error ("Delete failed: " ++ JS.toString (status r)
                   ++ " " ++ statusText r))).
Proof.
  intros self key sr r Hs Hf.
  unfold deleteObject, objectUrl.
  rewrite (bind_awsSign_return _ _ sr _ Hs). cbn [snd].
  rewrite (bind_doFetch_return _ _ r _ Hf). cbn [snd].
  split; intros H.
  - destruct (ok r) eqn:Hok; [reflexivity|].
    destruct H as [H|H]; [apply ok_range in H; congruence|].
    rewrite H. reflexivity.
  - destruct (ok r) eqn:Hok.
    + exfalso. apply H. left. now apply ok_range.
    + destruct (status r =? 404)%Z eqn:E; [|reflexivity].
      exfalso. apply H. right. now apply Z.eqb_eq.
Qed.

End Effects.

(** ** The content-type check of [presignedUploadUrl] *)

(** [presignedUploadUrl] either stops at the check, before any call, or
    goes on to the signer. *)
Lemma presignedUploadUrl_check
  (sign : string -> RequestInit -> outcome SignedRequest)
  (self : R2Bucket) (options : PresignedUploadUrlOptions) :
  (exists allowed,
      opt_allowedContentTypes options = Some allowed /\
      allowed <> [] /\
      isAllowed allowed (opt_contentType options) = false /\
      presignedUploadUrl sign self options
      = ([], Throw (Error (notAllowedMessage (opt_contentType options)
                             allowed))))
  \/
  ((forall allowed,
       opt_allowedContentTypes options = Some allowed ->
       allowed = [] \/ isAllowed allowed (opt_contentType options) = true) /\
   exists init rest,
     fst (presignedUploadUrl sign self options)
     = Signed (objectUrl self (opt_key options)) init :: rest).
Proof.
  unfold presignedUploadUrl.
  destruct (opt_allowedContentTypes options) as [[|p ps]|] eqn:Ha.
  - right. split; [intros allowed [= <-]; now left|].
    cbn [length Nat.ltb Nat.leb]. rewrite bind_ret.
    unfold bind, awsSign. destruct (sign _ _); eauto.
  - change (0 <? length (p :: ps))%nat with true. cbv iota.
    destruct (isAllowed (p :: ps) (opt_contentType options)) eqn:E.
    + right. split; [intros allowed [= <-]; now right|].
      cbn [negb]. rewrite bind_ret.
      unfold bind, awsSign. destruct (sign _ _); eauto.
    + left. exists (p :: ps). now repeat split.
  - right. split; [discriminate|]. rewrite bind_ret.
    unfold bind, awsSign. destruct (sign _ _); eauto.
Qed.

(** C1.  The content-type check of [presignedUploadUrl] succeeds on a list
    of allowed patterns exactly when one pattern of the list accepts the
    content type, where a pattern ending in [/*] accepts exactly the
    content types that start with the pattern's prefix up to and including
    the [/], and any other pattern accepts exactly the content type equal
    to it; and [presignedUploadUrl] stops before any call exactly when
    the list is there, is not empty and the check fails on it. *)
Theorem isAllowed_spec :
  (forall (allowedContentTypes : list string) (contentType : string),
      isAllowed allowedContentTypes contentType = true <->
      exists pattern,
        In pattern allowedContentTypes /\
        ((exists base rest,
             pattern = base ++ "/*" /\ contentType = base ++ "/" ++ rest)
         \/ ((forall base, pattern <> base ++ "/*") /\
             contentType = pattern)))
  /\
  (forall (sign : string -> RequestInit -> outcome SignedRequest)
          (self : R2Bucket) (options : PresignedUploadUrlOptions),
      (exists e, presignedUploadUrl sign self options = ([], Throw e)) <->
      (exists allowed,
          opt_allowedContentTypes options = Some allowed /\
          allowed <> [] /\
          isAllowed allowed (opt_contentType options) = false)).
Proof.
  split.
  - intros allowed ct. unfold isAllowed. rewrite existsb_exists.
    split; intros (p & Hin & H); exists p; split; auto;
      now apply matchesPattern_specAccepts.
  - intros sign self options.
    destruct (presignedUploadUrl_check sign self options)
      as [(allowed & Ha & Hne & Hno & Hthrow)
         | (Hok & init & rest & Htrace)].
    + split; [intros _; now exists allowed | intros _; eauto].
    + split.
      * intros [e He]. rewrite He in Htrace. discriminate Htrace.
      * intros (allowed & Ha & Hne & Hno).
        destruct (Hok allowed Ha) as [->|Hyes]; [contradiction|].
        rewrite Hyes in Hno. discriminate.
Qed.

(** ** Pre-signed URLs *)

(** What the pre-signing functions hand to the signer.
    [presignedUploadUrl] writes 86400 into the [expires] member of the
    request to sign when [expiresIn] is not supplied, and the supplied
    value otherwise, and its result carries that same number.
    [presignedDownloadUrl] writes 3600 when [expiresIn] is not supplied;
    its only call is the one to the signer, so nothing is fetched; it
    returns whenever the signer does, and the content type of its result
    is empty.  What the signer makes of the member is another matter,
    taken up next. *)
Theorem presigned_expiry :
  forall (sign : string -> RequestInit -> outcome SignedRequest)
         (self : R2Bucket),
    (forall options result,
        snd (presignedUploadUrl sign self options) = Return result ->
        let e := match opt_expiresIn options with
                 | Some e => e
                 | None => 86400%Z
                 end in
        res_expiresIn result = e /\
        exists init,
          fst (presignedUploadUrl sign self options) =
          [Signed (baseUrl self ++ "/" ++ name self ++ "/"
                   ++ opt_key options) init] /\
          signQuery (aws init) = true /\
          expires (aws init) = Some e)
    /\
    (forall key options,
        let e := match dl_expiresIn options with
                 | Some e => e
                 | None => 3600%Z
                 end in
        exists init,
          fst (presignedDownloadUrl sign self key options) =
          [Signed (baseUrl self ++ "/" ++ name self ++ "/" ++ key) init] /\
          method init = "GET" /\
          signQuery (aws init) = true /\
          expires (aws init) = Some e /\
          (forall result,
              snd (presignedDownloadUrl sign self key options)
              = Return result ->
              res_contentType result = "" /\ res_expiresIn result = e) /\
          (forall sr,
              sign (baseUrl self ++ "/" ++ name self ++ "/" ++ key) init
              = Return sr ->
              exists result,
                snd (presignedDownloadUrl sign self key options)
                = Return result /\
                res_url result = url sr /\ res_key result = key)).
Proof.
  intros sign self. split.
  - intros options result. unfold presignedUploadUrl, objectUrl.
    set (check := match opt_allowedContentTypes options with
                  | Some allowed => _
                  | None => _
                  end).
    assert (Hcheck : check = ret tt \/ exists e, check = throw e).
    { subst check. destruct (opt_allowedContentTypes options) as [a|];
        [|now left].
      destruct (0 <? length a)%nat; [|now left].
      destruct (negb _); [right; eauto | now left]. }
    destruct Hcheck as [-> | [e ->]]; [|discriminate].
    rewrite bind_ret.
    set (init := {| method := "PUT"; initHeaders := _;
                    initBody := None; aws := _ |}).
    destruct (sign (baseUrl self ++ "/" ++ name self ++ "/"
                    ++ opt_key options) init) as [sr|e] eqn:Hs.
    + rewrite (bind_awsSign_return _ _ _ sr _ Hs). cbn [fst snd ret].
      intros [= <-]. cbn [res_expiresIn].
      split; [now destruct (opt_expiresIn options)|].
      exists init. subst init. cbn.
      split; [reflexivity|]. split; [reflexivity|].
      now destruct (opt_expiresIn options).
    + rewrite (bind_awsSign_throw _ _ _ e _ Hs). discriminate.
  - intros key options. unfold presignedDownloadUrl, objectUrl.
    set (init := {| method := "GET"; initHeaders := None;
                    initBody := None; aws := _ |}).
    exists init.
    assert (He : expires (aws init)
                 = Some match dl_expiresIn options with
                        | Some e => e
                        | None => 3600%Z
                        end).
    { subst init; cbn. now destruct (dl_expiresIn options). }
    destruct (sign (baseUrl self ++ "/" ++ name self ++ "/" ++ key) init)
      as [sr|e] eqn:Hs.
    + rewrite (bind_awsSign_return _ _ _ sr _ Hs). cbn [fst snd ret].
      split; [reflexivity|]. split; [reflexivity|].
      split; [reflexivity|]. split; [exact He|]. split.
      * intros result [= <-]. cbn. split; [reflexivity|].
        now destruct (dl_expiresIn options).
      * intros sr' [= <-]. eexists. repeat split.
    + rewrite (bind_awsSign_throw _ _ _ e _ Hs). cbn [fst snd].
      split; [reflexivity|]. split; [reflexivity|].
      split; [reflexivity|]. split; [exact He|].
      split; [discriminate|]. intros sr [=].
Qed.

(** C9.  The expiry does not reach a signer that has no [expires]
    option, which is the case of [aws4fetch]: whatever [expiresIn] is,
    such a signer answers with the same URL, whose validity is therefore
    the signer's own (86400 seconds for [aws4fetch]), while the result
    reports the [expiresIn] of the call, 3600 by default for a download
    and 86400 for an upload.  The expiry that is reported is not the one
    in effect.  The rest holds: [presignedDownloadUrl] calls the signer
    and nothing else, and the content type of its result is empty. *)
Theorem presigned_expiry_ignored :
  forall (sign : string -> RequestInit -> outcome SignedRequest)
         (self : R2Bucket),
    ignoresExpires sign ->
    (forall key e e' result,
        snd (presignedDownloadUrl sign self key {| dl_expiresIn := e |})
        = Return result ->
        res_expiresIn result = default 3600%Z e /\
        res_contentType result = "" /\
        (exists init,
            fst (presignedDownloadUrl sign self key {| dl_expiresIn := e |})
            = [Signed (objectUrl self key) init]) /\
        exists result',
          snd (presignedDownloadUrl sign self key {| dl_expiresIn := e' |})
          = Return result' /\
          res_url result' = res_url result /\
          res_expiresIn result' = default 3600%Z e')
    /\
    (forall options e' result,
        snd (presignedUploadUrl sign self options) = Return result ->
        res_expiresIn result = default 86400%Z (opt_expiresIn options) /\
        exists result',
          snd (presignedUploadUrl sign self (withExpiresIn options e'))
          = Return result' /\
          res_url result' = res_url result /\
          res_expiresIn result' = default 86400%Z e').
Proof.
  intros sign self Hign. split.
  - intros key e e' result. unfold presignedDownloadUrl.
    cbn [dl_expiresIn].
    match goal with
    | |- context [awsSign sign _ ?i] => set (init := i)
    end.
    pose proof (Hign (objectUrl self key) init (Some (default 3600%Z e')))
      as Hsame.
    unfold withExpires in Hsame. cbn in Hsame.
    destruct (sign (objectUrl self key) init) as [sr|err] eqn:Hs.
    + rewrite (bind_awsSign_return _ _ _ sr _ Hs). cbn [fst snd ret].
      intros [= <-]. cbn [res_expiresIn res_contentType res_url].
      split; [reflexivity|]. split; [reflexivity|].
      split; [now exists init|].
      rewrite (bind_awsSign_return _ _ _ sr _ Hsame). cbn [fst snd ret].
      eexists. split; [reflexivity|]. split; reflexivity.
    + rewrite (bind_awsSign_throw _ _ _ err _ Hs). discriminate.
  - intros options e' result. unfold presignedUploadUrl.
    cbn [withExpiresIn opt_key opt_contentType opt_metadata opt_expiresIn
         opt_maxFileSize opt_allowedContentTypes].
    set (check := match opt_allowedContentTypes options with
                  | Some allowed => _
                  | None => _
                  end).
    assert (Hcheck : check = ret tt \/ exists err, check = throw err).
    { subst check. destruct (opt_allowedContentTypes options) as [a|];
        [|now left].
      destruct (0 <? length a)%nat; [|now left].
      destruct (negb _); [right; eauto | now left]. }
    destruct Hcheck as [-> | [err ->]]; [|discriminate].
    rewrite !bind_ret.
    match goal with
    | |- context [awsSign sign _ ?i] => set (init := i)
    end.
    pose proof (Hign (objectUrl self (opt_key options)) init
                  (Some (default 86400%Z e'))) as Hsame.
    unfold withExpires in Hsame. cbn in Hsame.
    destruct (sign (objectUrl self (opt_key options)) init)
      as [sr|err] eqn:Hs.
    + rewrite (bind_awsSign_return _ _ _ sr _ Hs). cbn [fst snd ret].
      intros [= <-]. cbn [res_expiresIn res_url].
      split; [reflexivity|].
      rewrite (bind_awsSign_return _ _ _ sr _ Hsame). cbn [fst snd ret].
      eexists. split; [reflexivity|]. split; reflexivity.
    + rewrite (bind_awsSign_throw _ _ _ err _ Hs). discriminate.
Qed.

(** ** Metadata *)

Lemma headerKey_not_proto (metaKey : string) : headerKey metaKey <> "__proto__".
Proof.
  intros H. pose proof (headerKey_prefixed metaKey) as Hp.
  rewrite H in Hp. discriminate.
Qed.

Lemma setProperty_lookup (o : gmap string string) (k v j : string) :
  k <> "__proto__" ->
  setProperty o k v !! j = if decide (k = j) then Some v else o !! j.
Proof.
  intros Hk. unfold setProperty.
  destruct (String.eqb_spec k "__proto__") as [->|_]; [contradiction|].
  apply lookup_insert.
Qed.

Lemma addMetadataHeader_lookup (headers : gmap string string)
  (k v n : string) :
  addMetadataHeader headers (k, v) !! n =
  if decide (headerKey k = n) then Some v else headers !! n.
Proof. apply setProperty_lookup, headerKey_not_proto. Qed.

(** A header of the upload comes from the initial object or from an entry
    of the metadata. *)
Lemma uploadHeaders_origin (md : list (string * string))
  (init : gmap string string) (n v : string) :
  fold_left addMetadataHeader md init !! n = Some v ->
  init !! n = Some v \/ exists k, In (k, v) md /\ headerKey k = n.
Proof.
  revert init; induction md as [|[k0 v0] md IH]; intros init H; cbn [fold_left] in *.
  - now left.
  - destruct (IH _ H) as [H0 | (k & Hin & Hk)].
    + rewrite addMetadataHeader_lookup in H0.
      destruct (decide (headerKey k0 = n)) as [E|_].
      * injection H0 as <-. right. exists k0. now split; [left|].
      * now left.
    + right. exists k. now split; [right|].
Qed.

(** The header of an entry holds the entry's value when every entry with
    that header name holds the same value. *)
Lemma uploadHeaders_entry (md : list (string * string))
  (init : gmap string string) (n v : string) :
  (forall k' v', In (k', v') md -> headerKey k' = n -> v' = v) ->
  init !! n = Some v \/ (exists k, In (k, v) md /\ headerKey k = n) ->
  fold_left addMetadataHeader md init !! n = Some v.
Proof.
  revert init; induction md as [|[k0 v0] md IH]; intros init Hall H;
    cbn [fold_left] in *.
  - destruct H as [H | (k & [] & _)]. exact H.
  - apply IH; [intros k' v' Hin; apply Hall; now right|].
    rewrite addMetadataHeader_lookup.
    destruct (decide (headerKey k0 = n)) as [E|NE].
    + left. f_equal. apply (Hall k0 v0); [now left | exact E].
    + destruct H as [H | (k & [Hin|Hin] & Hk)].
      * now left.
      * injection Hin as -> ->. contradiction.
      * right. now exists k.
Qed.

(** What one header of the response does to the metadata object. *)
Lemma collectMetadata_cases (metadata : gmap string string)
  (n v : string) :
  (JS.startsWith (JS.toLowerCase n) "x-amz-meta-" = false /\
   collectMetadata metadata (n, v) = metadata)
  \/ (exists k, JS.toLowerCase n = "x-amz-meta-" ++ k /\
                collectMetadata metadata (n, v) = setProperty metadata k v).
Proof.
  unfold collectMetadata.
  destruct (JS.startsWith (JS.toLowerCase n) "x-amz-meta-") eqn:E.
  - right. apply startsWith_inv in E as [k Hk]. exists k.
    split; [exact Hk|]. rewrite Hk. now rewrite replace_prefix.
  - now left.
Qed.

Lemma prefixed_startsWith (n k : string) :
  JS.toLowerCase n = "x-amz-meta-" ++ k ->
  JS.startsWith (JS.toLowerCase n) "x-amz-meta-" = true.
Proof. intros ->. apply startsWith_append. Qed.

(** A key of the metadata object comes from the initial object or from a
    header of the response whose lowercased name is the prefix followed by
    the key. *)
Lemma extractMetadata_origin (entries : headerList)
  (init : gmap string string) (k v : string) :
  fold_left collectMetadata entries init !! k = Some v ->
  init !! k = Some v \/
  exists n, In (n, v) entries /\ JS.toLowerCase n = "x-amz-meta-" ++ k.
Proof.
  revert init; induction entries as [|[n0 v0] es IH]; intros init H;
    cbn [fold_left] in *.
  - now left.
  - destruct (IH _ H) as [H0 | (n & Hin & Hn)].
    + destruct (collectMetadata_cases init n0 v0)
        as [[_ ->] | (k0 & Hk0 & ->)] in H0; [now left|].
      unfold setProperty in H0.
      destruct (String.eqb k0 "__proto__"); [now left|].
      rewrite lookup_insert in H0.
      destruct (decide (k0 = k)) as [->|_]; [|now left].
      injection H0 as <-. right. exists n0. now split; [left|].
    + right. exists n. now split; [right|].
Qed.

(** The metadata object holds [v] under [k] when some header of the
    response spells the prefixed key and every header that does holds
    [v]. *)
Lemma extractMetadata_entry (entries : headerList)
  (init : gmap string string) (k v : string) :
  k <> "__proto__" ->
  (forall n v',
      In (n, v') entries -> JS.toLowerCase n = "x-amz-meta-" ++ k ->
      v' = v) ->
  init !! k = Some v \/
  (exists n, In (n, v) entries /\ JS.toLowerCase n = "x-amz-meta-" ++ k) ->
  fold_left collectMetadata entries init !! k = Some v.
Proof.
  intros Hk.
  revert init; induction entries as [|[n0 v0] es IH]; intros init Hall H;
    cbn [fold_left] in *.
  - destruct H as [H | (n & [] & _)]. exact H.
  - apply IH; [intros n v' Hin; apply Hall; now right|].
    destruct (collectMetadata_cases init n0 v0)
      as [[Hno ->] | (k0 & Hk0 & ->)].
    + destruct H as [H | (n & [Hin|Hin] & Hn)].
      * now left.
      * injection Hin as -> ->.
        rewrite (prefixed_startsWith _ _ Hn) in Hno. discriminate.
      * right. now exists n.
    + destruct (decide (k0 = k)) as [->|NE].
      * left. rewrite setProperty_lookup by exact Hk.
        rewrite decide_True by reflexivity.
        f_equal. apply (Hall n0 v0); [now left | exact Hk0].
      * destruct H as [H | (n & [Hin|Hin] & Hn)].
        -- left. unfold setProperty.
           destruct (String.eqb k0 "__proto__"); [exact H|].
           now rewrite lookup_insert_ne.
        -- injection Hin as -> ->. rewrite Hk0 in Hn.
           apply append_inj_r in Hn. contradiction.
        -- right. now exists n.
Qed.

Lemma lowercase_key (n k : string) :
  JS.toLowerCase n = "x-amz-meta-" ++ k -> JS.toLowerCase k = k.
Proof.
  intros H. pose proof (toLowerCase_idem n) as Hi.
  rewrite H, toLowerCase_append in Hi.
  change (JS.toLowerCase "x-amz-meta-") with "x-amz-meta-" in Hi.
  now apply append_inj_r in Hi.
Qed.

(** ** Retrieval *)

(** [getObject] on a successful exchange: the two calls, then the
    descriptor of the response. *)
Lemma getObject_returns
  (sign : string -> RequestInit -> outcome SignedRequest)
  (fetch : string -> FetchInit -> outcome Response)
  (self : R2Bucket) (key : string) (sr : SignedRequest) (r : Response) :
  sign (baseUrl self ++ "/" ++ name self ++ "/" ++ key)
    (headerSigned "GET") = Return sr ->
  fetch (url sr)
    {| fetchMethod := "GET";
       fetchHeaders := signedHeaders sr;
       fetchBody := None |} = Return r ->
  (200 <= status r <= 299)%Z ->
  snd (getObject sign fetch self key) = Return (describeObject key r).
Proof.
  intros Hs Hf Hok. apply ok_range in Hok.
  unfold getObject, objectUrl.
  rewrite (bind_awsSign_return _ _ _ sr _ Hs). cbn [snd].
  rewrite (bind_doFetch_return _ _ _ r _ Hf). cbn [snd].
  now rewrite Hok.
Qed.

Lemma extractMetadata_empty (entries : headerList) :
  (forall n v,
      In (n, v) entries ->
      JS.startsWith (JS.toLowerCase n) "x-amz-meta-" = false) ->
  extractMetadata entries = ∅.
Proof.
  intros Hno. apply map_empty. intros k.
  destruct (extractMetadata entries !! k) as [v|] eqn:E; [|reflexivity].
  apply extractMetadata_origin in E as [E | (n & Hin & Hn)].
  - now rewrite lookup_empty in E.
  - pose proof (prefixed_startsWith _ _ Hn) as Hp.
    rewrite (Hno n v Hin) in Hp. discriminate.
Qed.

Lemma metadata_of_describeObject (key : string) (r : Response) :
  obj_metadata (describeObject key r) =
  if decide (extractMetadata (responseHeaders r) = ∅) then None
  else Some (extractMetadata (responseHeaders r)).
Proof.
  cbn. destruct (decide (extractMetadata (responseHeaders r) = ∅)) as [E|NE].
  - now rewrite E.
  - destruct (size (extractMetadata (responseHeaders r))) eqn:Hsz;
      [|reflexivity].
    now apply map_size_empty_iff in Hsz.
Qed.

(** C10.  On a successful response that carries no header whose
    lowercased name starts with [x-amz-meta-], the [metadata] of the
    descriptor that [getObject] returns is [undefined], not an empty
    object; and a metadata object that is returned is not empty, each of
    its keys is in lower case, and each key with its value comes from a
    header whose lowercased name is the prefix followed by the key: the
    case in which a key was uploaded is not kept. *)
Theorem getObject_metadata_lowercase :
  forall (sign : string -> RequestInit -> outcome SignedRequest)
         (fetch : string -> FetchInit -> outcome Response)
         (self : R2Bucket) (key : string) (sr : SignedRequest)
         (r : Response),
    sign (baseUrl self ++ "/" ++ name self ++ "/" ++ key)
      (headerSigned "GET") = Return sr ->
    fetch (url sr)
      {| fetchMethod := "GET";
         fetchHeaders := signedHeaders sr;
         fetchBody := None |} = Return r ->
    (200 <= status r <= 299)%Z ->
    exists o : R2Object,
      snd (getObject sign fetch self key) = Return o /\
      ((forall n v,
           In (n, v) (responseHeaders r) ->
           JS.startsWith (JS.toLowerCase n) "x-amz-meta-" = false) ->
       obj_metadata o = None) /\
      (forall m : gmap string string,
          obj_metadata o = Some m ->
          m <> ∅ /\
          forall k v,
            m !! k = Some v ->
            JS.toLowerCase k = k /\
            exists n,
              In (n, v) (responseHeaders r) /\
              JS.toLowerCase n = "x-amz-meta-" ++ k).
Proof.
  intros sign fetch self key sr r Hs Hf Hok.
  exists (describeObject key r).
  split; [now apply getObject_returns with (sr := sr)|].
  rewrite metadata_of_describeObject. split.
  - intros Hno. now rewrite (extractMetadata_empty _ Hno), decide_True.
  - intros m Hm.
    destruct (decide (extractMetadata (responseHeaders r) = ∅)) as [|NE];
      [discriminate|].
    injection Hm as <-. split; [exact NE|].
    intros k v Hkv.
    apply extractMetadata_origin in Hkv as [E | (n & Hin & Hn)].
    + now rewrite lookup_empty in E.
    + split; [now apply lowercase_key with (n := n) | now exists n].
Qed.

Lemma removeAll_clean (c : ascii) (s : string) :
  hasUnit c (JS.removeAll c s) = false.
Proof.
  induction s as [|a s IH]; simpl; [reflexivity|].
  destruct (Ascii.eqb a c) eqn:E; [exact IH|].
  simpl. now rewrite E, IH.
Qed.



Section Doubles.

Local Open Scope Z_scope.


(** From [2^53] on, [m] lies between two neighbouring multiples of the
    unit [2^e] of its binade, [q * 2^e] and [(q + 1) * 2^e], and
    [roundToDouble] takes the nearer one, and the one whose significand
    is even when [m] is half way. *)
Lemma roundToDouble_large (m : Z) :
  2 ^ 53 <= m ->
  let e := Z.log2 m - 52 in
  let q := m / 2 ^ e in
  let rest := m mod 2 ^ e in
  0 < e /\ m = q * 2 ^ e + rest /\ 0 <= rest < 2 ^ e /\
  2 ^ 52 <= q < 2 ^ 53 /\ 2 ^ e = 2 * 2 ^ (e - 1) /\
  ((rest < 2 ^ (e - 1) \/ (rest = 2 ^ (e - 1) /\ Z.even q = true)) /\
   JS.roundToDouble m = q * 2 ^ e
   \/ (2 ^ (e - 1) < rest \/ (rest = 2 ^ (e - 1) /\ Z.odd q = true)) /\
      JS.roundToDouble m = (q + 1) * 2 ^ e).
Proof.
  intros Hm e q rest.
  assert (H0 : 0 < m) by (pose proof (Z.pow_pos_nonneg 2 53); lia).
  assert (Hl : 53 <= Z.log2 m) by (apply Z.log2_le_pow2; lia).
  assert (He : 0 < e) by (unfold e; lia).
  pose proof (Z.log2_spec m H0) as [Hlo Hhi].
  assert (Hp : 0 < 2 ^ e) by (apply Z.pow_pos_nonneg; lia).
  assert (E1 : 2 ^ Z.log2 m = 2 ^ 52 * 2 ^ e).
  { rewrite <- Z.pow_add_r by lia. f_equal. unfold e. lia. }
  assert (E2 : 2 ^ Z.succ (Z.log2 m) = 2 ^ 53 * 2 ^ e).
  { rewrite <- Z.pow_add_r by lia. f_equal. unfold e. lia. }
  assert (Eh : 2 ^ e = 2 * 2 ^ (e - 1)).
  { rewrite <- Z.pow_succ_r by lia. f_equal. lia. }
  pose proof (Z.div_mod m (2 ^ e) ltac:(lia)) as Hdm.
  pose proof (Z.mod_pos_bound m (2 ^ e) Hp) as Hr.
  fold q rest in Hdm, Hr.
  assert (Hq : 2 ^ 52 <= q < 2 ^ 53).
  { split.
    - apply Z.div_le_lower_bound; lia.
    - apply Z.div_lt_upper_bound; lia. }
  split; [exact He|]. split; [lia|]. split; [exact Hr|].
  split; [exact Hq|]. split; [exact Eh|].
  unfold JS.roundToDouble. fold e.
  destruct (Z.leb_spec e 0); [lia|]. fold q rest.
  destruct (Z.ltb_spec (2 ^ (e - 1)) rest) as [Hlt|Hge]; cbn [orb].
  - right. split; [now left | reflexivity].
  - destruct (Z.eqb_spec rest (2 ^ (e - 1))) as [Heq|Hne]; cbn [andb].
    + destruct (Z.odd q) eqn:Ho.
      * right. split; [now right | reflexivity].
      * left. split; [|reflexivity]. right. split; [exact Heq|].
        rewrite <- Z.negb_odd, Ho. reflexivity.
    + left. split; [left; lia | reflexivity].
Qed.



(** ... and half way between two doubles it is the one with the even
    significand. *)
Lemma roundToDouble_tie (m : Z) :
  2 ^ 53 <= m ->
  let u := 2 ^ (Z.log2 m - 52) in
  2 * Z.abs (JS.roundToDouble m - m) = u ->
  Z.even (JS.roundToDouble m / u) = true.
Proof.
  intros Hb u.
  destruct (roundToDouble_large m Hb)
    as (He & Hm & Hr & Hq & Eh & Hcases).
  fold u in Hm, Hr, Eh, Hcases.
  set (q := m / u) in *. set (rest := m mod u) in *.
  set (h := 2 ^ (Z.log2 m - 52 - 1)) in *.
  destruct Hcases as [[Hc ->]|[Hc ->]]; intros Htie;
    rewrite Z.div_mul by lia.
  - destruct Hc as [Hc|[_ Hc]]; [lia | exact Hc].
  - destruct Hc as [Hc|[_ Hc]]; [lia|].
    rewrite Z.even_add, <- Z.negb_odd, Hc. reflexivity.
Qed.







End Doubles.











(** ** The round trip of metadata *)

Lemma NoDup_fst_value (md : list (string * string)) (k v v' : string) :
  NoDup (map fst md) -> In (k, v) md -> In (k, v') md -> v = v'.
Proof.
  induction md as [|[k0 v0] md IH]; intros Hnd Hin Hin'; [contradiction|].
  cbn [map fst] in Hnd. apply NoDup_cons in Hnd as [Hnotin Hnd].
  assert (Hfresh : forall w, In (k0, w) md -> False).
  { intros w Hw. apply Hnotin. apply list_elem_of_In.
    apply (in_map fst) in Hw. exact Hw. }
  destruct Hin as [E|Hin], Hin' as [E'|Hin'].
  - congruence.
  - injection E as -> ->. now destruct (Hfresh v').
  - injection E' as -> ->. now destruct (Hfresh v).
  - now apply IH.
Qed.

Lemma prefixed_lowercase (k : string) :
  JS.toLowerCase k = k ->
  JS.toLowerCase ("x-amz-meta-" ++ k) = "x-amz-meta-" ++ k.
Proof. intros H. now rewrite toLowerCase_append, H. Qed.

Section RoundTrip.

Variable contentType : string.
Variable metadata : list (string * string).
Variables metaKey metaValue : string.

Hypothesis distinct_keys : NoDup (map fst metadata).
Hypothesis entry : In (metaKey, metaValue) metadata.
Hypothesis unprefixed : JS.startsWith metaKey "x-amz-meta-" = false.
Hypothesis lowercase : JS.toLowerCase metaKey = metaKey.
Hypothesis alone :
  forall k v,
    In (k, v) metadata ->
    JS.toLowerCase (headerKey k) = "x-amz-meta-" ++ metaKey ->
    k = metaKey.

Lemma headerKey_unprefixed : headerKey metaKey = "x-amz-meta-" ++ metaKey.
Proof. unfold headerKey. now rewrite unprefixed. Qed.

Lemma same_header_same_value (k v : string) :
  In (k, v) metadata ->
  JS.toLowerCase (headerKey k) = "x-amz-meta-" ++ metaKey ->
  v = metaValue.
Proof.
  intros Hin Hk. pose proof (alone _ _ Hin Hk) as ->.
  exact (NoDup_fst_value _ _ _ _ distinct_keys Hin entry).
Qed.

(** The entry is sent under its prefixed key. *)
Lemma sent_prefixed :
  uploadHeaders contentType metadata !! ("x-amz-meta-" ++ metaKey)
  = Some metaValue.
Proof.
  unfold uploadHeaders. apply uploadHeaders_entry.
  - intros k' v' Hin Hk. apply (same_header_same_value k'); [exact Hin|].
    rewrite Hk. now apply prefixed_lowercase.
  - right. exists metaKey. split; [exact entry | exact headerKey_unprefixed].
Qed.

(** What the service returns for it reads back as the entry. *)
Lemma received_unprefixed (received : headerList) :
  metaKey <> "__proto__" ->
  storesMetadata (uploadHeaders contentType metadata) received ->
  extractMetadata received !! metaKey = Some metaValue.
Proof.
  intros Hproto [Hthere Honly].
  unfold extractMetadata. apply extractMetadata_entry; [exact Hproto| |].
  - intros n v' Hin Hn.
    destruct (Honly n v' Hin (prefixed_startsWith _ _ Hn))
      as (n0 & Hsent & Hn0).
    unfold uploadHeaders in Hsent.
    apply uploadHeaders_origin in Hsent as [Hct | (k & Hk & <-)].
    + apply lookup_singleton_Some in Hct as [<- _].
      rewrite Hn in Hn0. discriminate Hn0.
    + apply (same_header_same_value k); [exact Hk|]. now rewrite Hn0.
  - right.
    destruct (Hthere _ _ sent_prefixed) as (n' & Hin & Hn').
    + rewrite prefixed_lowercase by exact lowercase.
      apply startsWith_append.
    + exists n'. split; [exact Hin|].
      rewrite Hn'. now apply prefixed_lowercase.
Qed.

End RoundTrip.

(** C8, as the code has it.  Take a metadata mapping (the entries of
    [Object.entries], with distinct keys) and one of its entries whose key
    is unprefixed, in lower case and not [__proto__], such that no other
    key of the mapping gives the same header name up to case.  Then
    [uploadFile] and [presignedUploadUrl] hand the signer, to be signed
    with all the headers, a header set that holds the entry's value under
    [x-amz-meta-] followed by the key; and whenever the service returns
    the metadata headers that were sent, in whatever case, [getObject]
    returns a metadata object that holds the same value under the same
    unprefixed key. *)
Theorem metadata_roundtrip :
  forall (contentType : string) (metadata : list (string * string))
         (metaKey metaValue : string),
    NoDup (map fst metadata) ->
    In (metaKey, metaValue) metadata ->
    JS.startsWith metaKey "x-amz-meta-" = false ->
    JS.toLowerCase metaKey = metaKey ->
    metaKey <> "__proto__" ->
    (forall k v,
        In (k, v) metadata ->
        JS.toLowerCase (headerKey k) = "x-amz-meta-" ++ metaKey ->
        k = metaKey) ->
    let sent := uploadHeaders contentType metadata in
    sent !! ("x-amz-meta-" ++ metaKey) = Some metaValue
    /\
    (forall sign fetch self key file,
        exists init rest,
          fst (uploadFile sign fetch self key file
                 {| up_contentType := contentType;
                    up_metadata := Some metadata |})
          = Signed (baseUrl self ++ "/" ++ name self ++ "/" ++ key) init
            :: rest /\
          initHeaders init = Some sent /\
          allHeaders (aws init) = Some true)
    /\
    (forall sign self key expiresIn maxFileSize allowed result,
        let options :=
          {| opt_key := key;
             opt_contentType := contentType;
             opt_metadata := Some metadata;
             opt_expiresIn := expiresIn;
             opt_maxFileSize := maxFileSize;
             opt_allowedContentTypes := allowed |} in
        snd (presignedUploadUrl sign self options) = Return result ->
        exists init,
          fst (presignedUploadUrl sign self options)
          = [Signed (baseUrl self ++ "/" ++ name self ++ "/" ++ key) init]
          /\ initHeaders init = Some sent
          /\ allHeaders (aws init) = Some true)
    /\
    (forall sign fetch self key sr r,
        sign (baseUrl self ++ "/" ++ name self ++ "/" ++ key)
          (headerSigned "GET") = Return sr ->
        fetch (url sr)
          {| fetchMethod := "GET";
             fetchHeaders := signedHeaders sr;
             fetchBody := None |} = Return r ->
        (200 <= status r <= 299)%Z ->
        storesMetadata sent (responseHeaders r) ->
        exists o m,
          snd (getObject sign fetch self key) = Return o /\
          obj_metadata o = Some m /\
          m !! metaKey = Some metaValue).
Proof.
  intros contentType metadata metaKey metaValue Hnd Hin Hun Hlow Hproto
    Halone sent.
  split; [now apply sent_prefixed|]. split; [|split].
  - intros sign fetch self key file.
    unfold uploadFile, objectUrl.
    match goal with
    | |- context [awsSign sign _ ?i] => set (init := i)
    end.
    destruct (sign (baseUrl self ++ "/" ++ name self ++ "/" ++ key) init)
      as [sr|e] eqn:Hs.
    + rewrite (bind_awsSign_return _ _ _ sr _ Hs). cbn [fst].
      exists init. eexists. repeat split.
    + rewrite (bind_awsSign_throw _ _ _ e _ Hs). cbn [fst].
      exists init. eexists. repeat split.
  - intros sign self key expiresIn maxFileSize allowed result options.
    unfold presignedUploadUrl, objectUrl.
    set (check := match opt_allowedContentTypes options with
                  | Some a => _
                  | None => _
                  end).
    assert (Hcheck : check = ret tt \/ exists e, check = throw e).
    { subst check. destruct (opt_allowedContentTypes options) as [a|];
        [|now left].
      destruct (0 <? length a)%nat; [|now left].
      destruct (negb _); [right; eauto | now left]. }
    destruct Hcheck as [-> | [e ->]]; [|discriminate].
    rewrite bind_ret.
    subst options. cbn [opt_key].
    match goal with
    | |- context [awsSign sign _ ?i] => set (init := i)
    end.
    destruct (sign (baseUrl self ++ "/" ++ name self ++ "/" ++ key) init)
      as [sr|e] eqn:Hs.
    + rewrite (bind_awsSign_return _ _ _ sr _ Hs). cbn [fst snd ret].
      intros _. exists init. repeat split.
    + rewrite (bind_awsSign_throw _ _ _ e _ Hs). discriminate.
  - intros sign fetch self key sr r Hs Hf Hok Hstore.
    exists (describeObject key r), (extractMetadata (responseHeaders r)).
    split; [now apply getObject_returns with (sr := sr)|].
    pose proof (received_unprefixed contentType metadata metaKey metaValue
                  Hnd Hin Hun Hlow Halone (responseHeaders r) Hproto Hstore)
      as Hget.
    split; [|exact Hget].
    rewrite metadata_of_describeObject.
    rewrite decide_False; [reflexivity|].
    intros E. rewrite E, lookup_empty in Hget. discriminate.
Qed.

(** ** Matching *)

Lemma literal_append (p s : string) : Regex.literal p (p ++ s) = Some s.
Proof.
  induction p as [|a p IH]; simpl; [reflexivity|].
  now rewrite Ascii.eqb_refl.
Qed.

Lemma literal_inv (p s r : string) :
  Regex.literal p s = Some r -> s = p ++ r.
Proof.
  revert s; induction p as [|a p IH]; intros s H; simpl in *.
  - now injection H as ->.
  - destruct s as [|b s]; [discriminate|].
    destruct (Ascii.eqb_spec b a) as [->|_]; [|discriminate].
    now rewrite (IH _ H).
Qed.

Lemma literal_length (p s r : string) :
  Regex.literal p s = Some r ->
  String.length s = String.length p + String.length r.
Proof. intros H. rewrite (literal_inv _ _ _ H). apply length_append. Qed.

(** A literal without [<] that matches at the start of [x ++ z], where
    [z] starts with [<], matches within [x]. *)
Lemma literal_within (q x z' r : string) :
  hasUnit "<" q = false ->
  Regex.literal q (x ++ String "<" z') = Some r ->
  exists r', Regex.literal q x = Some r'.
Proof.
  revert x; induction q as [|a q IH]; intros x Hq H.
  - now exists x.
  - cbn [hasUnit] in Hq. apply orb_false_iff in Hq as [Ha Hq].
    destruct x as [|b x].
    + change ("" ++ String "<" z') with (String "<" z') in H.
      cbn [Regex.literal] in H.
      destruct (Ascii.eqb_spec "<" a) as [<-|_]; [|discriminate].
      rewrite Ascii.eqb_refl in Ha. discriminate Ha.
    + change (String b x ++ String "<" z')
        with (String b (x ++ String "<" z')) in H.
      cbn [Regex.literal] in *.
      destruct (Ascii.eqb b a); [|discriminate]. now apply IH.
Qed.

Lemma literal_startsWith (p s r : string) :
  Regex.literal p s = Some r -> JS.startsWith s p = true.
Proof. intros H. rewrite (literal_inv _ _ _ H). apply startsWith_append. Qed.

(** A literal [<q], with no [<] in [q], does not match across the end of
    a text in which it does not occur, when [<] follows the text. *)
Lemma literal_no_straddle (q x z' : string) (c : ascii) :
  hasUnit "<" q = false ->
  JS.startsWith (String c x) (String "<" q) = false ->
  Regex.literal (String "<" q) (String c x ++ String "<" z') = None.
Proof.
  intros Hq Hno.
  destruct (Regex.literal _ _) as [r|] eqn:E; [|reflexivity].
  exfalso.
  change (String c x ++ String "<" z')
    with (String c (x ++ String "<" z')) in E.
  cbn [Regex.literal] in E. cbn [JS.startsWith] in Hno.
  destruct (Ascii.eqb c "<"); [|discriminate]. cbn [andb] in Hno.
  destruct (literal_within _ _ _ _ Hq E) as [r' Hr'].
  apply literal_startsWith in Hr'. now rewrite Hr' in Hno.
Qed.

Lemma occursIn_cons (p s : string) (c : ascii) :
  occursIn p (String c s) = false ->
  JS.startsWith (String c s) p = false /\ occursIn p s = false.
Proof. cbn [occursIn]. intros H. now apply orb_false_iff in H. Qed.

(** A text without [<] holds no occurrence of a literal that starts with
    [<]; occurrences are searched in what follows it. *)
Lemma occursIn_clean (q n s : string) :
  hasUnit "<" n = false ->
  occursIn (String "<" q) (n ++ s) = occursIn (String "<" q) s.
Proof.
  intros Hn. induction n as [|c n IH]; [reflexivity|].
  cbn [hasUnit] in Hn. apply orb_false_iff in Hn as [Hc Hn].
  change (String c n ++ s) with (String c (n ++ s)).
  cbn [occursIn JS.startsWith]. rewrite Hc. cbn [andb orb]. now apply IH.
Qed.

Section Search.

Variable re : Regex.regex.
Variable q : string.
Hypothesis opening_lt : Regex.opening re = String "<" q.
Hypothesis opening_clean : hasUnit "<" q = false.

(** The search skips a text in which the opening literal does not
    occur. *)
Lemma exec_skip (before z' : string) :
  occursIn (Regex.opening re) before = false ->
  Regex.exec re (before ++ String "<" z') = Regex.exec re (String "<" z').
Proof.
  induction before as [|c x IH]; intros Hno; [reflexivity|].
  apply occursIn_cons in Hno as [Hhead Hrest].
  change (String c x ++ String "<" z') with (String c (x ++ String "<" z')).
  cbn [Regex.exec]. unfold Regex.execAt at 1.
  change (String c (x ++ String "<" z')) with (String c x ++ String "<" z').
  rewrite opening_lt in *.
  rewrite (literal_no_straddle _ _ _ _ opening_clean Hhead).
  now apply IH.
Qed.

(** There is no match in a text in which the opening literal does not
    occur. *)
Lemma exec_none (s : string) :
  occursIn (Regex.opening re) s = false -> Regex.exec re s = None.
Proof.
  induction s as [|c s IH]; intros Hno.
  - cbn [Regex.exec]. unfold Regex.execAt. rewrite opening_lt. reflexivity.
  - apply occursIn_cons in Hno as [Hhead Hrest].
    cbn [Regex.exec]. unfold Regex.execAt.
    destruct (Regex.literal _ _) as [r|] eqn:E.
    + apply literal_startsWith in E. now rewrite E in Hhead.
    + now apply IH.
Qed.

End Search.

(** The lazy run stops at the first occurrence of the closing literal. *)
Lemma lazyRun_first (q content rest : string) :
  hasUnit "<" q = false ->
  occursIn (String "<" q) content = false ->
  Regex.lazyRun Regex.anyUnit (String "<" q)
    (content ++ String "<" q ++ rest)
  = Some (content, rest).
Proof.
  intros Hq. induction content as [|c x IH]; intros Hno.
  - change ("" ++ String "<" q ++ rest) with (String "<" q ++ rest).
    destruct (String "<" q ++ rest) as [|a t] eqn:E; [discriminate|].
    cbn [Regex.lazyRun]. rewrite <- E. now rewrite literal_append.
  - apply occursIn_cons in Hno as [Hhead Hrest].
    change (String c x ++ String "<" q ++ rest)
      with (String c (x ++ String "<" q ++ rest)).
    cbn [Regex.lazyRun].
    change (String c (x ++ String "<" q ++ rest))
      with (String c x ++ String "<" (q ++ rest)).
    rewrite (literal_no_straddle _ _ _ _ Hq Hhead).
    cbn [Regex.anyUnit].
    change (x ++ String "<" (q ++ rest)) with (x ++ String "<" q ++ rest).
    now rewrite (IH Hrest).
Qed.

(** The greedy run of units other than [<] stops at the first [<]. *)
Lemma greedyRun_first (q n rest : string) :
  hasUnit "<" n = false ->
  Regex.greedyRun Regex.notLt (String "<" q) (n ++ String "<" q ++ rest)
  = Some (n, rest).
Proof.
  induction n as [|c n IH]; intros Hn.
  - change ("" ++ String "<" q ++ rest) with (String "<" (q ++ rest)).
    cbn [Regex.greedyRun].
    change (Regex.notLt "<") with false. cbv iota.
    change (String "<" (q ++ rest)) with (String "<" q ++ rest).
    now rewrite literal_append.
  - cbn [hasUnit] in Hn. apply orb_false_iff in Hn as [Hc Hn].
    change (String c n ++ String "<" q ++ rest)
      with (String c (n ++ String "<" q ++ rest)).
    cbn [Regex.greedyRun]. unfold Regex.notLt at 1. rewrite Hc. cbn [negb].
    now rewrite (IH Hn).
Qed.

(** The first match of the bucket pattern in a text that starts with a
    block. *)
Lemma exec_bucket (before content rest : string) :
  occursIn "<Bucket>" before = false ->
  occursIn "</Bucket>" content = false ->
  Regex.exec bucketPattern
    (before ++ "<Bucket>" ++ content ++ "</Bucket>" ++ rest)
  = Some (content, rest).
Proof.
  intros Hb Hc.
  change ("<Bucket>" ++ content ++ "</Bucket>" ++ rest)
    with (String "<" ("Bucket>" ++ content ++ "</Bucket>" ++ rest)).
  rewrite (exec_skip bucketPattern "Bucket>" eq_refl eq_refl) by exact Hb.
  cbn [Regex.exec]. unfold Regex.execAt.
  change (String "<" ("Bucket>" ++ content ++ "</Bucket>" ++ rest))
    with ("<Bucket>" ++ content ++ "</Bucket>" ++ rest).
  cbn [bucketPattern Regex.opening Regex.lazy Regex.class Regex.closing].
  rewrite literal_append.
  now rewrite (lazyRun_first "/Bucket>" content rest eq_refl Hc).
Qed.

Lemma hasUnit_append (c : ascii) (a b : string) :
  hasUnit c (a ++ b) = hasUnit c a || hasUnit c b.
Proof.
  induction a as [|x a IH]; [reflexivity|].
  change (String x a ++ b) with (String x (a ++ b)).
  cbn [hasUnit]. now rewrite IH, orb_assoc.
Qed.

(** [parseXmlTag] finds the first [<tag>] when its text holds no [<]. *)
Lemma parseXmlTag_found (tag before n after : string) :
  hasUnit "<" tag = false ->
  occursIn ("<" ++ tag ++ ">") before = false ->
  hasUnit "<" n = false ->
  parseXmlTag
    (before ++ ("<" ++ tag ++ ">") ++ n ++ ("</" ++ tag ++ ">") ++ after)
    tag
  = Some (JS.trim n).
Proof.
  intros Htag Hb Hn. unfold parseXmlTag.
  set (re := {| Regex.opening := "<" ++ tag ++ ">";
                Regex.class := Regex.notLt;
                Regex.lazy := false;
                Regex.closing := "</" ++ tag ++ ">" |}).
  assert (Hq : hasUnit "<" (tag ++ ">") = false).
  { rewrite hasUnit_append, Htag. reflexivity. }
  change (("<" ++ tag ++ ">") ++ n ++ ("</" ++ tag ++ ">") ++ after)
    with (String "<" ((tag ++ ">") ++ n ++ ("</" ++ tag ++ ">") ++ after)).
  rewrite (exec_skip re (tag ++ ">") eq_refl Hq) by exact Hb.
  cbn [Regex.exec]. unfold Regex.execAt.
  change (String "<" ((tag ++ ">") ++ n ++ ("</" ++ tag ++ ">") ++ after))
    with (Regex.opening re ++ n ++ ("</" ++ tag ++ ">") ++ after).
  rewrite literal_append.
  change (Regex.lazy re) with false. cbv iota.
  change (Regex.closing re) with (String "<" ("/" ++ tag ++ ">")).
  change (n ++ ("</" ++ tag ++ ">") ++ after)
    with (n ++ String "<" ("/" ++ tag ++ ">") ++ after).
  now rewrite (greedyRun_first _ n after Hn).
Qed.

(** [parseXmlTag] finds nothing where [<tag>] does not occur. *)
Lemma parseXmlTag_none (tag s : string) :
  hasUnit "<" tag = false ->
  occursIn ("<" ++ tag ++ ">") s = false ->
  parseXmlTag s tag = None.
Proof.
  intros Htag Hno. unfold parseXmlTag.
  set (re := {| Regex.opening := "<" ++ tag ++ ">";
                Regex.class := Regex.notLt;
                Regex.lazy := false;
                Regex.closing := "</" ++ tag ++ ">" |}).
  now rewrite (exec_none re (tag ++ ">") eq_refl s Hno).
Qed.

(** Every match takes code units when the opening literal is not empty:
    the search resumes in a strictly shorter text. *)
Lemma lazyRun_length (cls : ascii -> bool) (close s cap rest : string) :
  Regex.lazyRun cls close s = Some (cap, rest) ->
  String.length rest <= String.length s.
Proof.
  revert cap; induction s as [|c s IH]; intros cap H; cbn [Regex.lazyRun] in H.
  - destruct (Regex.literal close "") as [r|] eqn:E; [|discriminate].
    injection H as _ <-. apply literal_length in E. lia.
  - destruct (Regex.literal close (String c s)) as [r|] eqn:E.
    + injection H as _ <-. apply literal_length in E. lia.
    + destruct (cls c); [|discriminate].
      destruct (Regex.lazyRun cls close s) as [[cap' rest']|] eqn:E';
        [|discriminate].
      injection H as _ <-. specialize (IH _ eq_refl). simpl. lia.
Qed.

Lemma greedyRun_length (cls : ascii -> bool) (close s cap rest : string) :
  Regex.greedyRun cls close s = Some (cap, rest) ->
  String.length rest <= String.length s.
Proof.
  assert (Hstop : forall t,
             match Regex.literal close t with
             | Some rest0 => Some ("", rest0)
             | None => None
             end = Some (cap, rest) ->
             String.length rest <= String.length t).
  { intros t H. destruct (Regex.literal close t) as [r|] eqn:E;
      [|discriminate].
    injection H as _ <-. apply literal_length in E. lia. }
  revert cap Hstop; induction s as [|c s IH]; intros cap Hstop H;
    cbn [Regex.greedyRun] in H.
  - now apply Hstop.
  - destruct (cls c); [|now apply Hstop].
    destruct (Regex.greedyRun cls close s) as [[cap' rest']|] eqn:E'.
    + injection H as _ <-.
      assert (String.length rest' <= String.length s); [|simpl; lia].
      apply (IH cap'); [|reflexivity].
      intros t Ht. destruct (Regex.literal close t) as [r|] eqn:E;
        [|discriminate].
      injection Ht as _ <-. apply literal_length in E. lia.
    + now apply Hstop.
Qed.

Lemma exec_shrinks (re : Regex.regex) (s cap rest : string) :
  Regex.opening re <> "" ->
  Regex.exec re s = Some (cap, rest) ->
  String.length rest < String.length s.
Proof.
  intros Hopen. induction s as [|c s IH]; intros H; cbn [Regex.exec] in H.
  - unfold Regex.execAt in H.
    destruct (Regex.opening re) as [|a p]; [contradiction|discriminate].
  - destruct (Regex.execAt re (String c s)) as [[cap' rest']|] eqn:E.
    + injection H as -> ->. unfold Regex.execAt in E.
      destruct (Regex.literal _ _) as [s1|] eqn:El; [|discriminate].
      apply literal_length in El.
      assert (String.length rest <= String.length s1).
      { destruct (Regex.lazy re);
          [now apply lazyRun_length in E | now apply greedyRun_length in E]. }
      destruct (Regex.opening re) as [|a p]; [contradiction|].
      simpl in El |- *. lia.
    + specialize (IH H). simpl. lia.
Qed.

(** The fuel of [matchAll] is enough: more fuel gives the same matches. *)
Lemma matchAllFrom_enough (re : Regex.regex) :
  Regex.opening re <> "" ->
  forall fuel fuel' s,
    String.length s < fuel -> String.length s < fuel' ->
    Regex.matchAllFrom fuel re s = Regex.matchAllFrom fuel' re s.
Proof.
  intros Hopen. induction fuel as [|fuel IH]; intros fuel' s H H'; [lia|].
  destruct fuel' as [|fuel']; [lia|]. cbn [Regex.matchAllFrom].
  destruct (Regex.exec re s) as [[cap rest]|] eqn:E; [|reflexivity].
  apply (exec_shrinks re _ _ _ Hopen) in E.
  f_equal. apply IH; lia.
Qed.

Lemma matchAll_fuel (re : Regex.regex) (fuel : nat) (s : string) :
  Regex.opening re <> "" ->
  String.length s < fuel ->
  Regex.matchAllFrom fuel re s = Regex.matchAll re s.
Proof.
  intros Hopen H. unfold Regex.matchAll.
  apply matchAllFrom_enough; [exact Hopen | exact H | lia].
Qed.

(** The matches of the bucket pattern in a document are the contents of
    its blocks, in order. *)
Lemma matchAll_document (blocks : list (string * string)) (tail : string) :
  Forall (fun b => occursIn "<Bucket>" (fst b) = false /\
                   occursIn "</Bucket>" (snd b) = false) blocks ->
  occursIn "<Bucket>" tail = false ->
  Regex.matchAll bucketPattern (document blocks tail) = map snd blocks.
Proof.
  intros Hblocks Htail. unfold Regex.matchAll.
  generalize (Nat.lt_succ_diag_r (String.length (document blocks tail))).
  generalize (S (String.length (document blocks tail))) as fuel.
  induction Hblocks as [|[before content] more [Hb Hc] _ IH];
    intros fuel Hfuel.
  - destruct fuel as [|fuel]; [lia|]. cbn [document Regex.matchAllFrom].
    now rewrite (exec_none bucketPattern "Bucket>" eq_refl _ Htail).
  - destruct fuel as [|fuel]; [lia|].
    cbn [document Regex.matchAllFrom map snd fst] in *.
    rewrite (exec_bucket _ _ _ Hb Hc).
    f_equal. apply IH.
    rewrite !length_append in Hfuel.
    change (String.length "<Bucket>") with 8 in Hfuel. lia.
Qed.

(** ** Listing buckets *)

Lemma pushBucket_describeBlock (buckets : list BucketInfo) (bucketXml : string) :
  pushBucket buckets bucketXml
  = (buckets ++ match describeBlock bucketXml with
                | Some b => [b]
                | None => []
                end)%list.
Proof.
  unfold pushBucket, describeBlock, JS.truthy.
  destruct (parseXmlTag bucketXml "Name") as [n|]; [|now rewrite app_nil_r].
  destruct (String.eqb n ""); cbn [negb]; [now rewrite app_nil_r|].
  destruct (parseXmlTag bucketXml "CreationDate") as [d|]; [|reflexivity].
  now destruct (String.eqb d "").
Qed.

(** The loop of [parseBucketsXml] keeps, in order, the descriptors of the
    blocks that have one. *)
Lemma fold_pushBucket (contents : list string) (buckets : list BucketInfo) :
  fold_left pushBucket contents buckets
  = (buckets ++ omap describeBlock contents)%list.
Proof.
  revert buckets; induction contents as [|c cs IH]; intros buckets;
    cbn [fold_left omap list_omap].
  - now rewrite app_nil_r.
  - rewrite IH, pushBucket_describeBlock.
    destruct (describeBlock c) as [b|]; cbn [option_bind mbind].
    + now rewrite <- app_assoc.
    + now rewrite app_nil_r.
Qed.

Lemma describeBlock_location (bucketXml : string) (b : BucketInfo) :
  describeBlock bucketXml = Some b -> bucket_location b = "auto".
Proof.
  unfold describeBlock.
  destruct (parseXmlTag bucketXml "Name") as [n|]; [|discriminate].
  destruct (String.eqb n ""); [discriminate|]. now intros [= <-].
Qed.

Lemma omap_describeBlock_location (contents : list string) (b : BucketInfo) :
  In b (omap describeBlock contents) -> bucket_location b = "auto".
Proof.
  induction contents as [|c cs IH]; cbn [omap list_omap]; [contradiction|].
  destruct (describeBlock c) as [b'|] eqn:E; [|exact IH].
  intros [<-|Hin]; [now apply describeBlock_location with c | now apply IH].
Qed.

(** Proves that a literal starting with [<] does not occur in a text made
    of literals and of parts known to hold no [<]. *)
Ltac no_occurrence :=
  repeat first
    [ reflexivity
    | rewrite occursIn_clean by assumption
    | progress cbn [occursIn JS.startsWith String.append andb orb] ].

Lemma wellFormed_closed (n d : string) :
  hasUnit "<" n = false -> hasUnit "<" d = false ->
  occursIn "</Bucket>" (wellFormed n d) = false.
Proof. intros Hn Hd. unfold wellFormed. no_occurrence. Qed.

(** The descriptor of a well-formed block. *)
Lemma describeBlock_wellFormed (n d : string) :
  hasUnit "<" n = false -> hasUnit "<" d = false ->
  describeBlock (wellFormed n d)
  = if String.eqb (JS.trim n) "" then None
    else Some {| bucket_name := JS.trim n;
                 bucket_creationDate :=
                   if String.eqb (JS.trim d) "" then None
                   else Some (DateOf (JS.trim d));
                 bucket_location := "auto" |}.
Proof.
  intros Hn Hd. unfold describeBlock.
  assert (HN : parseXmlTag (wellFormed n d) "Name" = Some (JS.trim n)).
  { apply (parseXmlTag_found "Name" ""
             n ("<CreationDate>" ++ d ++ "</CreationDate>"));
      [reflexivity | reflexivity | exact Hn]. }
  assert (HD : parseXmlTag (wellFormed n d) "CreationDate"
               = Some (JS.trim d)).
  { replace (wellFormed n d)
      with (("<Name>" ++ n ++ "</Name>")
            ++ ("<" ++ "CreationDate" ++ ">") ++ d
            ++ ("</" ++ "CreationDate" ++ ">") ++ "")
      by (unfold wellFormed; rewrite !append_assoc, append_nil_r;
          reflexivity).
    apply parseXmlTag_found; [reflexivity | | exact Hd].
    no_occurrence. }
  now rewrite HN, HD.
Qed.

(** C6, as the code has it.  On a successful response with body [xml],
    [listBuckets] returns one descriptor per [<Bucket>] block in which
    [parseXmlTag] finds a [<Name>] whose trimmed text is not empty, in
    document order, each with the location [auto].  The blocks are the
    matches of the bucket pattern, which in a document are the contents
    of its blocks.  A block is skipped, nothing being raised, when
    [<Name>] does not occur in it and when the text of its [<Name>] is
    blank.  A body with two well-formed blocks whose names are not blank
    gives exactly two descriptors, in document order. *)
Theorem listBuckets_descriptors :
  forall (sign : string -> RequestInit -> outcome SignedRequest)
         (fetch : string -> FetchInit -> outcome Response)
         (self : R2Client) (sr : SignedRequest) (r : Response)
         (xml : string),
    sign (clientBaseUrl self) (headerSigned "GET") = Return sr ->
    fetch (url sr)
      {| fetchMethod := "GET";
         fetchHeaders := signedHeaders sr;
         fetchBody := None |} = Return r ->
    (200 <= status r <= 299)%Z ->
    text r = Return xml ->
    exists buckets : list BucketInfo,
      snd (listBuckets sign fetch self) = Return buckets /\
      buckets = omap describeBlock (Regex.matchAll bucketPattern xml) /\
      (forall b, In b buckets -> bucket_location b = "auto") /\
      (forall blocks tail,
          xml = document blocks tail ->
          Forall (fun b => occursIn "<Bucket>" (fst b) = false /\
                           occursIn "</Bucket>" (snd b) = false) blocks ->
          occursIn "<Bucket>" tail = false ->
          buckets = omap describeBlock (map snd blocks)) /\
      (forall content,
          occursIn "<Name>" content = false ->
          describeBlock content = None) /\
      (forall before n after,
          occursIn "<Name>" before = false ->
          hasUnit "<" n = false ->
          match describeBlock
                  (before ++ "<Name>" ++ n ++ "</Name>" ++ after) with
          | Some b => JS.trim n <> "" /\ bucket_name b = JS.trim n
          | None => JS.trim n = ""
          end) /\
      (forall h n1 d1 mid n2 d2 t,
          xml = document [(h, wellFormed n1 d1); (mid, wellFormed n2 d2)] t ->
          occursIn "<Bucket>" h = false ->
          occursIn "<Bucket>" mid = false ->
          occursIn "<Bucket>" t = false ->
          hasUnit "<" n1 = false -> hasUnit "<" d1 = false ->
          hasUnit "<" n2 = false -> hasUnit "<" d2 = false ->
          JS.trim n1 <> "" -> JS.trim n2 <> "" ->
          buckets =
          [ {| bucket_name := JS.trim n1;
               bucket_creationDate :=
                 if String.eqb (JS.trim d1) "" then None
                 else Some (DateOf (JS.trim d1));
               bucket_location := "auto" |};
            {| bucket_name := JS.trim n2;
               bucket_creationDate :=
                 if String.eqb (JS.trim d2) "" then None
                 else Some (DateOf (JS.trim d2));
               bucket_location := "auto" |} ]).
Proof.
  intros sign fetch self sr r xml Hs Hf Hok Htext.
  exists (parseBucketsXml xml).
  assert (Hparse : parseBucketsXml xml
                   = omap describeBlock (Regex.matchAll bucketPattern xml)).
  { unfold parseBucketsXml. now rewrite fold_pushBucket. }
  assert (Hdoc : forall blocks tail,
             xml = document blocks tail ->
             Forall (fun b => occursIn "<Bucket>" (fst b) = false /\
                              occursIn "</Bucket>" (snd b) = false) blocks ->
             occursIn "<Bucket>" tail = false ->
             parseBucketsXml xml = omap describeBlock (map snd blocks)).
  { intros blocks tail -> Hb Ht. rewrite Hparse.
    now rewrite (matchAll_document _ _ Hb Ht). }
  split.
  { apply ok_range in Hok. unfold listBuckets.
    rewrite (bind_awsSign_return _ _ _ sr _ Hs). cbn [snd].
    rewrite (bind_doFetch_return _ _ _ r _ Hf). cbn [snd].
    rewrite Hok. cbn [negb]. unfold awaitText. rewrite Htext.
    reflexivity. }
  split; [exact Hparse|]. split; [|split; [exact Hdoc|split; [|split]]].
  - intros b. rewrite Hparse. apply omap_describeBlock_location.
  - intros content Hno. unfold describeBlock.
    now rewrite (parseXmlTag_none "Name" content eq_refl Hno).
  - intros before n after Hb Hn. unfold describeBlock.
    assert (HN : parseXmlTag
                   (before ++ "<Name>" ++ n ++ "</Name>" ++ after) "Name"
                 = Some (JS.trim n))
      by exact (parseXmlTag_found "Name" before n after eq_refl Hb Hn).
    rewrite HN.
    destruct (String.eqb_spec (JS.trim n) ""); [assumption|].
    now split.
  - intros h n1 d1 mid n2 d2 t Hx Hh Hmid Ht Hn1 Hd1 Hn2 Hd2 Ht1 Ht2.
    rewrite (Hdoc _ _ Hx); [|repeat constructor; cbn [fst snd];
                              auto using wellFormed_closed | exact Ht].
    cbn [map snd omap list_omap].
    rewrite !describeBlock_wellFormed by assumption.
    destruct (String.eqb_spec (JS.trim n1) ""); [contradiction|].
    destruct (String.eqb_spec (JS.trim n2) ""); [contradiction|].
    reflexivity.
Qed.

(** ** The properties at concrete inputs *)

Lemma presignedUploadUrl_rejects_witness :
  opt_allowedContentTypes pdfUpload = Some ["image/*"] /\
  presignedUploadUrl signEcho gallery pdfUpload
  = ([], Throw (Error "Content type 'application/pdf' is not allowed. Allowed types: image/*")).
Proof.
  split; [reflexivity|].
  apply (presignedUploadUrl_rejects signEcho gallery pdfUpload ["image/*"]).
  - reflexivity.
  - discriminate.
  - intros pattern [<-|[]]. reflexivity.
Defined.

Lemma deleteObject_status_witness :
  snd (deleteObject signEcho (respond (sampleResponse 404 "Not Found" [] ""))
         gallery "file.jpg") = Return tt /\
  snd (deleteObject signEcho
         (respond (sampleResponse 500 "Internal Server Error" [] ""))
         gallery "file.jpg")
  = Throw (Error "Delete failed: 500 Internal Server Error").
Proof.
  split.
  - apply (deleteObject_status signEcho
             (respond (sampleResponse 404 "Not Found" [] ""))
             gallery "file.jpg"
             {| url := "https://abc123.r2.cloudflarestorage.com/gallery/file.jpg";
                signedHeaders := [] |}
             (sampleResponse 404 "Not Found" [] ""));
      [reflexivity | reflexivity | right; reflexivity].
  - apply (deleteObject_status signEcho
             (respond (sampleResponse 500 "Internal Server Error" [] ""))
             gallery "file.jpg"
             {| url := "https://abc123.r2.cloudflarestorage.com/gallery/file.jpg";
                signedHeaders := [] |}
             (sampleResponse 500 "Internal Server Error" [] ""));
      [reflexivity | reflexivity |].
    cbn. intros [H|H]; [lia | discriminate H].
Defined.

Lemma presigned_expiry_witness :
  (exists result,
      snd (presignedDownloadUrl signEcho gallery "missing.txt"
             {| dl_expiresIn := None |}) = Return result /\
      res_contentType result = "" /\ res_expiresIn result = 3600%Z) /\
  (exists result,
      snd (presignedUploadUrl signEcho gallery pngUpload) = Return result /\
      res_expiresIn result = 86400%Z).
Proof.
  destruct (presigned_expiry signEcho gallery) as [Hup Hdown]. split.
  - destruct (Hdown "missing.txt" {| dl_expiresIn := None |})
      as (init & Htrace & _ & _ & _ & Hres & Hret).
    injection Htrace as <-.
    destruct (Hret _ eq_refl) as (result & Hresult & _).
    exists result. split; [exact Hresult|]. exact (Hres _ Hresult).
  - eexists. split; [reflexivity|].
    exact (proj1 (Hup pngUpload _ eq_refl)).
Defined.

(** With a signer that gives a query-signed URL a validity of 86400
    seconds, [presignedDownloadUrl('file.jpg')] returns a URL valid for
    86400 seconds and reports 3600; with [expiresIn: 60] the URL is the
    same and the result reports 60. *)
Lemma presigned_expiry_ignored_witness :
  ignoresExpires signDay /\
  exists result result',
    snd (presignedDownloadUrl signDay gallery "file.jpg"
           {| dl_expiresIn := None |}) = Return result /\
    res_url result
    = "https://abc123.r2.cloudflarestorage.com/gallery/file.jpg?X-Amz-Expires=86400" /\
    res_expiresIn result = 3600%Z /\
    snd (presignedDownloadUrl signDay gallery "file.jpg"
           {| dl_expiresIn := Some 60%Z |}) = Return result' /\
    res_url result' = res_url result /\
    res_expiresIn result' = 60%Z.
Proof.
  assert (Hign : ignoresExpires signDay) by (intros target init e; reflexivity).
  split; [exact Hign|].
  destruct (presigned_expiry_ignored signDay gallery Hign) as [Hdown _].
  destruct (Hdown "file.jpg" None (Some 60%Z) _ eq_refl)
    as (Hecho & _ & _ & result' & Hresult' & Hurl & Hecho').
  eexists _, result'. split; [reflexivity|]. split; [reflexivity|].
  split; [exact Hecho|]. split; [exact Hresult'|].
  split; [exact Hurl | exact Hecho'].
Defined.

(** The same for an upload: [expiresIn: 60] and no [expiresIn] give the
    same URL. *)
Example presignedUploadUrl_day :
  exists result result',
    snd (presignedUploadUrl signDay gallery (withExpiresIn pngUpload (Some 60%Z)))
    = Return result /\
    snd (presignedUploadUrl signDay gallery (withExpiresIn pngUpload None))
    = Return result' /\
    res_url result = res_url result' /\
    res_expiresIn result = 60%Z /\ res_expiresIn result' = 86400%Z.
Proof. eexists _, _. repeat split. Qed.

Lemma getObject_metadata_lowercase_witness :
  (exists o,
      snd (getObject signEcho
             (respond (sampleResponse 200 "OK"
                         [("content-type", "image/png")] ""))
             gallery "file.jpg") = Return o /\
      obj_metadata o = None) /\
  (exists o m,
      snd (getObject signEcho
             (respond (sampleResponse 200 "OK"
                         [("X-Amz-Meta-Owner", "alice")] ""))
             gallery "file.jpg") = Return o /\
      obj_metadata o = Some m /\
      forall k v, m !! k = Some v -> JS.toLowerCase k = k).
Proof.
  split.
  - destruct (getObject_metadata_lowercase signEcho
                (respond (sampleResponse 200 "OK"
                            [("content-type", "image/png")] ""))
                gallery "file.jpg"
                {| url := "https://abc123.r2.cloudflarestorage.com/gallery/file.jpg";
                   signedHeaders := [] |}
                (sampleResponse 200 "OK" [("content-type", "image/png")] ""))
      as (o & Ho & Hnone & _); [reflexivity | reflexivity | cbn; lia |].
    exists o. split; [exact Ho|]. apply Hnone.
    intros n v [[= <- <-]|[]]. reflexivity.
  - destruct (getObject_metadata_lowercase signEcho
                (respond (sampleResponse 200 "OK"
                            [("X-Amz-Meta-Owner", "alice")] ""))
                gallery "file.jpg"
                {| url := "https://abc123.r2.cloudflarestorage.com/gallery/file.jpg";
                   signedHeaders := [] |}
                (sampleResponse 200 "OK" [("X-Amz-Meta-Owner", "alice")] ""))
      as (o & Ho & _ & Hsome); [reflexivity | reflexivity | cbn; lia |].
    exists o. injection Ho as <-. eexists. split; [reflexivity|].
    split; [reflexivity|].
    intros k v Hkv. exact (proj1 (proj2 (Hsome _ eq_refl) k v Hkv)).
Defined.



Lemma listBuckets_descriptors_witness :
  exists buckets,
    snd (listBuckets signEcho
           (respond (sampleResponse 200 "OK" [] twoBuckets)) account)
    = Return buckets /\
    buckets =
    [ {| bucket_name := "gallery";
         bucket_creationDate := Some (DateOf "2024-01-01T00:00:00.000Z");
         bucket_location := "auto" |};
      {| bucket_name := "uploads";
         bucket_creationDate := Some (DateOf "2024-03-01T00:00:00.000Z");
         bucket_location := "auto" |} ].
Proof.
  destruct (listBuckets_descriptors signEcho
              (respond (sampleResponse 200 "OK" [] twoBuckets)) account
              {| url := "https://abc123.r2.cloudflarestorage.com";
                 signedHeaders := [] |}
              (sampleResponse 200 "OK" [] twoBuckets) twoBuckets)
    as (buckets & Hret & Hparse & _);
    [reflexivity | reflexivity | cbn; lia | reflexivity |].
  exists buckets. split; [exact Hret|].
  rewrite Hparse. reflexivity.
Defined.

(** C6 as stated fails: a block that contains a [<Name>] tag, with no
    text, gives no descriptor. *)
Lemma listBuckets_blank_name :
  exists content,
    Regex.matchAll bucketPattern blankName = [content] /\
    occursIn "<Name>" content = true /\
    parseXmlTag content "Name" = Some "" /\
    snd (listBuckets signEcho
           (respond (sampleResponse 200 "OK" [] blankName)) account)
    = Return [].
Proof.
  eexists. split; [reflexivity|]. repeat split.
Qed.

Lemma metadata_roundtrip_witness :
  uploadHeaders "text/plain" [("owner", "alice")] !! "x-amz-meta-owner"
  = Some "alice" /\
  exists o m,
    snd (getObject signEcho
           (respond (sampleResponse 200 "OK"
                       [("X-Amz-Meta-Owner", "alice")] ""))
           gallery "file.jpg") = Return o /\
    obj_metadata o = Some m /\
    m !! "owner" = Some "alice".
Proof.
  destruct (metadata_roundtrip "text/plain" [("owner", "alice")]
              "owner" "alice")
    as (Hsent & _ & _ & Hback).
  - apply NoDup_singleton.
  - left. reflexivity.
  - reflexivity.
  - reflexivity.
  - discriminate.
  - intros k v [[= <- <-]|[]] _. reflexivity.
  - split; [exact Hsent|].
    apply (Hback signEcho
             (respond (sampleResponse 200 "OK"
                         [("X-Amz-Meta-Owner", "alice")] ""))
             gallery "file.jpg"
             {| url := "https://abc123.r2.cloudflarestorage.com/gallery/file.jpg";
                signedHeaders := [] |}
             (sampleResponse 200 "OK" [("X-Amz-Meta-Owner", "alice")] ""));
      [reflexivity | reflexivity | cbn; lia |].
    split.
    + intros n v Hn Hpre. exists "X-Amz-Meta-Owner".
      unfold uploadHeaders in Hn.
      apply uploadHeaders_origin in Hn as [Hct | (k & [[= <- <-]|[]] & <-)].
      * apply lookup_singleton_Some in Hct as [<- _]. discriminate Hpre.
      * split; [left; reflexivity | reflexivity].
    + intros n' v [[= <- <-]|[]] _. exists "x-amz-meta-owner".
      split; [exact Hsent | reflexivity].
Defined.

(** C8 as stated fails: of two keys that give the same header name, the
    later one is sent; the value uploaded under [owner] is not sent, and
    [getObject] returns the other value under [owner]. *)
Lemma metadata_roundtrip_clash :
  let sent := uploadHeaders "text/plain" clashing in
  let received := [("content-type", "text/plain");
                   ("x-amz-meta-owner", "bob")] in
  In ("owner", "alice") clashing /\
  NoDup (map fst clashing) /\
  sent = {[ "Content-Type" := "text/plain"; "x-amz-meta-owner" := "bob" ]} /\
  sent !! "x-amz-meta-owner" <> Some "alice" /\
  storesMetadata sent received /\
  exists o,
    snd (getObject signEcho (respond (sampleResponse 200 "OK" received ""))
           gallery "file.jpg") = Return o /\
    obj_metadata o = Some {[ "owner" := "bob" ]}.
Proof.
  cbv zeta.
  assert (Hsent : uploadHeaders "text/plain" clashing
                  = {[ "Content-Type" := "text/plain";
                       "x-amz-meta-owner" := "bob" ]}).
  { vm_compute. reflexivity. }
  split; [left; reflexivity|].
  split.
  { apply NoDup_cons. split; [|apply NoDup_singleton].
    intros H. apply list_elem_of_In in H as [H|[]]. discriminate H. }
  split; [exact Hsent|]. rewrite Hsent.
  split; [rewrite lookup_insert_ne by discriminate;
          rewrite lookup_singleton_eq; discriminate|].
  split; [split|].
  - intros n v Hn Hpre. exists "x-amz-meta-owner".
    apply lookup_insert_Some in Hn as [[<- <-] | [_ Hn]];
      [discriminate Hpre|].
    apply lookup_singleton_Some in Hn as [<- <-].
    split; [right; left; reflexivity | reflexivity].
  - intros n' v [[= <- <-]|[[= <- <-]|[]]] Hpre; [discriminate Hpre|].
    exists "x-amz-meta-owner". split; [|reflexivity].
    rewrite lookup_insert_ne by discriminate. apply lookup_singleton_eq.
  - eexists. split; [reflexivity|]. reflexivity.
Qed.

(** ** The primitives at concrete inputs *)

Example toString_404 : JS.toString 404 = "404".
Proof. reflexivity. Qed.

Example toString_0 : JS.toString 0 = "0".
Proof. reflexivity. Qed.

(** Printing a status and reading it back gives the status. *)
Example toString_parseInt_statuses :
  forallb (fun n => match JS.parseInt (JS.toString (Z.of_nat n)) with
                    | JS.Num z => (z =? Z.of_nat n)%Z
                    | _ => false
                    end) (seq 0 1000) = true.
Proof. vm_compute. reflexivity. Qed.

Example parseInt_42 : JS.parseInt "42" = JS.Num 42.
Proof. reflexivity. Qed.

Example parseInt_trailing : JS.parseInt " 42px" = JS.Num 42.
Proof. reflexivity. Qed.

Example parseInt_negative : JS.parseInt "-7" = JS.Num (-7).
Proof. reflexivity. Qed.

Example parseInt_abc : JS.parseInt "abc" = JS.NaN.
Proof. reflexivity. Qed.

(** [2^53 + 1] is not a double: it is half way between [2^53] and
    [2^53 + 2], and the one with the even significand is returned. *)
Example parseInt_beyond_2_53 :
  JS.parseInt "9007199254740993" = JS.Num 9007199254740992.
Proof. vm_compute. reflexivity. Qed.

Example parseInt_2_54_3 :
  JS.parseInt "18014398509481987" = JS.Num 18014398509481988.
Proof. vm_compute. reflexivity. Qed.

(** The largest double, and the first integer that is read as
    [Infinity]. *)
Example toNumber_largest :
  JS.toNumber false (2 ^ 1024 - 2 ^ 970 - 1)
  = JS.Num (2 ^ 1024 - 2 ^ 971) /\
  JS.toNumber false (2 ^ 1024 - 2 ^ 970) = JS.Infinity false.
Proof. split; vm_compute; reflexivity. Qed.

Example parseInt_negative_zero : JS.parseInt "-0" = JS.NegZero.
Proof. reflexivity. Qed.

Example parseInt_negative_large :
  JS.parseInt "-9007199254740995" = JS.Num (-9007199254740996).
Proof. vm_compute. reflexivity. Qed.

Example slice_wildcard_image : JS.slice "image/*" 0 (-2) = "image".
Proof. reflexivity. Qed.

Example slice_short : JS.slice "*" 0 (-2) = "".
Proof. reflexivity. Qed.

Example endsWith_wildcard : JS.endsWith "image/*" "/*" = true.
Proof. reflexivity. Qed.

Example endsWith_longer : JS.endsWith "*" "/*" = false.
Proof. reflexivity. Qed.

Example trim_spaces : JS.trim "  a b  " = "a b".
Proof. reflexivity. Qed.

Example replace_first_only :
  JS.replace "x-amz-meta-x-amz-meta-a" "x-amz-meta-" "" = "x-amz-meta-a".
Proof. reflexivity. Qed.

Example toLowerCase_header :
  JS.toLowerCase "X-Amz-Meta-Owner" = "x-amz-meta-owner".
Proof. reflexivity. Qed.

Example join_two : JS.join ["image/*"; "application/pdf"] ", "
                   = "image/*, application/pdf".
Proof. reflexivity. Qed.

Example matchesPattern_png : matchesPattern "image/png" "image/*" = true.
Proof. reflexivity. Qed.

Example matchesPattern_bare : matchesPattern "image" "image/*" = false.
Proof. reflexivity. Qed.

Example matchesPattern_exact :
  matchesPattern "application/pdf" "application/pdf" = true.
Proof. reflexivity. Qed.

Example headerKey_plain : headerKey "owner" = "x-amz-meta-owner".
Proof. reflexivity. Qed.

Example headerKey_kept : headerKey "x-amz-meta-owner" = "x-amz-meta-owner".
Proof. reflexivity. Qed.

Example headerKey_case : headerKey "X-Amz-Meta-a" = "x-amz-meta-X-Amz-Meta-a".
Proof. reflexivity. Qed.

(** The lazy run ends at the first closing tag. *)
Example matchAll_nested :
  Regex.matchAll bucketPattern "<Bucket><Bucket>x</Bucket>y</Bucket>"
  = ["<Bucket>x"].
Proof. reflexivity. Qed.

Example matchAll_unclosed :
  Regex.matchAll bucketPattern "<Bucket><Name>a</Name>" = [].
Proof. reflexivity. Qed.

(** The greedy run gives up on a text that holds a tag and goes on to the
    next opening tag. *)
Example parseXmlTag_second :
  parseXmlTag "<Name>a<b/></Name><Name> c </Name>" "Name" = Some "c".
Proof. reflexivity. Qed.

Example presignedUploadUrl_png :
  presignedUploadUrl signEcho gallery pngUpload
  = ([Signed "https://abc123.r2.cloudflarestorage.com/gallery/a.png"
        {| method := "PUT";
           initHeaders := Some (uploadHeaders "image/png"
                                  [("owner", "alice")]);
           initBody := None;
           aws := {| signQuery := true;
                     expires := Some 86400%Z;
                     allHeaders := Some true |} |}],
     Return {| res_url :=
                 "https://abc123.r2.cloudflarestorage.com/gallery/a.png";
               res_key := "a.png";
               res_contentType := "image/png";
               res_expiresIn := 86400;
               res_metadata := Some [("owner", "alice")];
               res_maxFileSize := None;
               res_allowedContentTypes := Some ["image/*"] |}).
Proof. reflexivity. Qed.

Example exists_network_failure :
  snd (exists_ signEcho fetchFails gallery) = Return false.
Proof. reflexivity. Qed.

Example objectExists_signer_failure :
  snd (objectExists signFails fetchFails gallery "file.jpg") = Return false.
Proof. reflexivity. Qed.

Example objectExists_404 :
  snd (objectExists signEcho (respond (sampleResponse 404 "Not Found" [] ""))
         gallery "file.jpg") = Return false.
Proof. reflexivity. Qed.

Example uploadFile_size :
  snd (uploadFile signEcho
         (respond (sampleResponse 200 "OK" [("etag", quotedTag)] ""))
         gallery "file.txt" (FileString "content")
         {| up_contentType := "text/plain"; up_metadata := None |})
  = Return {| upl_key := "file.txt";
              upl_contentType := "text/plain";
              upl_fileSize := 7;
              upl_etag := Some "abc123" |}.
Proof. reflexivity. Qed.

(** * Further properties of the code *)

(** ** The exchanges of the operations *)

Lemma awaitText_silent {B : Type} (r : Response) (k : string -> B) :
  fst (bind (awaitText r) (fun xml => ret (k xml))) = [].
Proof. unfold awaitText, bind. now destruct (text r). Qed.

(** Proves that what follows the fetch makes no call. *)
Ltac silent :=
  intros ?r;
  repeat match goal with
         | |- context [if ?b then _ else _] => destruct b
         end;
  try reflexivity; apply awaitText_silent.

Section Exchanges.

Variable sign : string -> RequestInit -> outcome SignedRequest.
Variable fetch : string -> FetchInit -> outcome Response.

(** The three ways an exchange can go. *)
Lemma exchange_cases {B : Type} (target : string) (init : RequestInit)
  (k : Response -> IO B) :
  let m := exchange sign fetch target init k in
  (exists e,
      sign target init = Throw e /\
      m = ([Signed target init], Throw e))
  \/ (exists sr e,
         sign target init = Return sr /\
         fetch (url sr)
           {| fetchMethod := method init;
              fetchHeaders := signedHeaders sr;
              fetchBody := initBody init |} = Throw e /\
         m = ([Signed target init;
               Fetched (url sr)
                 {| fetchMethod := method init;
                    fetchHeaders := signedHeaders sr;
                    fetchBody := initBody init |}], Throw e))
  \/ (exists sr r,
         sign target init = Return sr /\
         fetch (url sr)
           {| fetchMethod := method init;
              fetchHeaders := signedHeaders sr;
              fetchBody := initBody init |} = Return r /\
         m = (Signed target init
              :: Fetched (url sr)
                   {| fetchMethod := method init;
                      fetchHeaders := signedHeaders sr;
                      fetchBody := initBody init |}
              :: fst (k r), snd (k r))).
Proof.
  cbv zeta. unfold exchange.
  destruct (sign target init) as [sr|e] eqn:Hs.
  - rewrite (bind_awsSign_return _ _ _ sr _ Hs).
    destruct (fetch (url sr)
                {| fetchMethod := method init;
                   fetchHeaders := signedHeaders sr;
                   fetchBody := initBody init |}) as [r|e] eqn:Hf.
    + right. right. exists sr, r.
      rewrite (bind_doFetch_return _ _ _ r _ Hf). now repeat split.
    + right. left. exists sr, e.
      rewrite (bind_doFetch_throw _ _ _ e _ Hf). now repeat split.
  - left. exists e. rewrite (bind_awsSign_throw _ _ _ e _ Hs). now split.
Qed.

Lemma exchange_oneExchange {B : Type} (target : string)
  (init : RequestInit) (k : Response -> IO B) :
  (forall r, fst (k r) = []) ->
  oneExchange sign (fst (exchange sign fetch target init k)).
Proof.
  intros Hk.
  destruct (exchange_cases target init k)
    as [(e & _ & ->) | [(sr & e & Hs & _ & ->) | (sr & r & Hs & _ & ->)]];
    cbn [fst].
  - right. left. eauto.
  - right. right. eauto.
  - rewrite Hk. right. right. eauto.
Qed.

Lemma exchange_propagates {B : Type} (target : string)
  (init : RequestInit) (k : Response -> IO B) :
  propagates sign fetch (exchange sign fetch target init k).
Proof.
  destruct (exchange_cases target init k)
    as [(e & Hs & ->) | [(sr & e & Hs & Hf & ->) | (sr & r & Hs & Hf & ->)]];
    split; cbn [fst snd].
  - intros t i rest e' [= <- <- <-] He. rewrite Hs in He.
    now injection He as <-.
  - intros t i t' i' rest e' [=].
  - intros t i rest e' [= <- <- <-] He. rewrite Hs in He. discriminate.
  - intros t i t' i' rest e' [= <- <- <- <- <-] He. rewrite Hf in He.
    now injection He as <-.
  - intros t i rest e' [= <- <- <-] He. rewrite Hs in He. discriminate.
  - intros t i t' i' rest e' [= <- <- <- <- <-] He. rewrite Hf in He.
    discriminate.
Qed.

Lemma exchange_rejectsFailure {B : Type} (what target : string)
  (init : RequestInit) (k : Response -> IO B) :
  (forall r, ~ (200 <= status r <= 299)%Z ->
             snd (k r) = Throw (Error (failedMessage what r))) ->
  rejectsFailure fetch what (exchange sign fetch target init k).
Proof.
  intros Hk t i t' i' rest r.
  destruct (exchange_cases target init k)
    as [(e & Hs & ->) | [(sr & e & Hs & Hf & ->) | (sr & r' & Hs & Hf & ->)]];
    cbn [fst snd].
  - intros [=].
  - intros [= <- <- <- <- <-] Hr. rewrite Hf in Hr. discriminate.
  - intros [= <- <- <- <- <-] Hr. rewrite Hf in Hr. injection Hr as ->.
    apply Hk.
Qed.

(** Each operation that reaches the network is one exchange. *)
Lemma uploadFile_exchange (self : R2Bucket) (key : string)
  (file : FileContent) (options : UploadFileOptions) :
  uploadFile sign fetch self key file options
  = exchange sign fetch (objectUrl self key)
      {| method := "PUT";
         initHeaders :=
           Some (uploadHeaders (up_contentType options)
                   (default [] (up_metadata options)));
         initBody := Some (toBlob file (up_contentType options));
         aws := {| signQuery := false;
                   expires := None;
                   allHeaders := Some true |} |}
      (fun response =>
         if negb (ok response)
         then throw (Error (failedMessage "Upload" response))
         else
           ret {| upl_key := key;
                  upl_contentType := up_contentType options;
                  upl_fileSize :=
                    blobSize (toBlob file (up_contentType options));
                  upl_etag := etagOf (responseHeaders response) |}).
Proof. reflexivity. Qed.

Lemma deleteObject_exchange (self : R2Bucket) (key : string) :
  deleteObject sign fetch self key
  = exchange sign fetch (objectUrl self key) (headerSigned "DELETE")
      (fun response =>
         if negb (ok response) && negb (status response =? 404)%Z
         then throw (Error (failedMessage "Delete" response))
         else ret tt).
Proof. reflexivity. Qed.

Lemma getObject_exchange (self : R2Bucket) (key : string) :
  getObject sign fetch self key
  = exchange sign fetch (objectUrl self key) (headerSigned "GET")
      (fun response =>
         if negb (ok response)
         then throw (Error (failedMessage "Get object" response))
         else ret (describeObject key response)).
Proof. reflexivity. Qed.

Lemma listBuckets_exchange (self : R2Client) :
  listBuckets sign fetch self
  = exchange sign fetch (clientBaseUrl self) (headerSigned "GET")
      (fun response =>
         if negb (ok response)
         then throw (Error (failedMessage "List buckets" response))
         else bind (awaitText response)
                (fun xml => ret (parseBucketsXml xml))).
Proof. reflexivity. Qed.

Lemma getInfo_exchange (self : R2Bucket) :
  getInfo sign fetch self
  = exchange sign fetch (baseUrl self ++ "/" ++ name self ++ "?location")
      (headerSigned "GET")
      (fun response =>
         if negb (ok response)
         then throw (Error (failedMessage "Get bucket info" response))
         else bind (awaitText response)
                (fun xml =>
                   ret {| details_name := name self;
                          details_creationDate := None;
                          details_location := parseLocationXml xml |})).
Proof. reflexivity. Qed.

Lemma headCheck_exchange (target : string) :
  tryCatch
    (bind (awsSign sign target (headerSigned "HEAD"))
       (fun signedRequest =>
          bind (doFetch fetch (url signedRequest)
                  {| fetchMethod := "HEAD";
                     fetchHeaders := signedHeaders signedRequest;
                     fetchBody := None |})
               (fun response => ret (ok response))))
    (ret false)
  = tryCatch
      (exchange sign fetch target (headerSigned "HEAD")
         (fun response => ret (ok response)))
      (ret false).
Proof. reflexivity. Qed.

Lemma tryCatch_trace {B : Type} (m : IO B) (b : B) :
  fst (tryCatch m (ret b)) = fst m.
Proof.
  destruct m as [t [a|e]]; cbn; [reflexivity | now rewrite app_nil_r].
Qed.

(** X1. Every operation makes at most one call to the signer and at most one
    fetch; the fetch follows the signature and sends the signed method and
    body to the URL, and with the headers, that the signer returned. No
    operation tries again. *)
Theorem operations_one_exchange :
  forall (bucket : R2Bucket) (client : R2Client) (key : string)
         (file : FileContent) (upload : UploadFileOptions)
         (presign : PresignedUploadUrlOptions)
         (download : PresignedDownloadUrlOptions),
    oneExchange sign (fst (presignedUploadUrl sign bucket presign)) /\
    oneExchange sign (fst (presignedDownloadUrl sign bucket key download)) /\
    oneExchange sign (fst (exists_ sign fetch bucket)) /\
    oneExchange sign (fst (objectExists sign fetch bucket key)) /\
    oneExchange sign (fst (uploadFile sign fetch bucket key file upload)) /\
    oneExchange sign (fst (deleteObject sign fetch bucket key)) /\
    oneExchange sign (fst (getObject sign fetch bucket key)) /\
    oneExchange sign (fst (getInfo sign fetch bucket)) /\
    oneExchange sign (fst (listBuckets sign fetch client)).
Proof.
  intros bucket client key file upload presign download.
  repeat split.
  - unfold presignedUploadUrl.
    set (check := match opt_allowedContentTypes presign with
                  | Some allowed => _
                  | None => _
                  end).
    assert (Hcheck : check = ret tt \/ exists e, check = throw e).
    { subst check. destruct (opt_allowedContentTypes presign) as [a|];
        [|now left].
      destruct (0 <? length a)%nat; [|now left].
      destruct (negb _); [right; eauto | now left]. }
    destruct Hcheck as [-> | [e ->]]; [|now left].
    rewrite bind_ret. right. left. unfold bind, awsSign.
    destruct (sign _ _); cbn; eauto.
  - right. left. unfold presignedDownloadUrl, bind, awsSign.
    destruct (sign _ _); cbn; eauto.
  - unfold exists_. rewrite headCheck_exchange, tryCatch_trace.
    now apply exchange_oneExchange.
  - unfold objectExists. rewrite headCheck_exchange, tryCatch_trace.
    now apply exchange_oneExchange.
  - rewrite uploadFile_exchange. apply exchange_oneExchange. silent.
  - rewrite deleteObject_exchange. apply exchange_oneExchange. silent.
  - rewrite getObject_exchange. apply exchange_oneExchange. silent.
  - rewrite getInfo_exchange. apply exchange_oneExchange. silent.
  - rewrite listBuckets_exchange. apply exchange_oneExchange. silent.
Qed.

(** X2. The operations other than the two existence checks hand on the
    failures of the signer and of the network: the exception of the signer
    is thrown before anything is fetched, and the exception of the fetch is
    thrown as it is. *)
Theorem failures_propagate :
  forall (bucket : R2Bucket) (client : R2Client) (key : string)
         (file : FileContent) (upload : UploadFileOptions)
         (download : PresignedDownloadUrlOptions),
    propagates sign fetch (presignedDownloadUrl sign bucket key download) /\
    propagates sign fetch (uploadFile sign fetch bucket key file upload) /\
    propagates sign fetch (deleteObject sign fetch bucket key) /\
    propagates sign fetch (getObject sign fetch bucket key) /\
    propagates sign fetch (getInfo sign fetch bucket) /\
    propagates sign fetch (listBuckets sign fetch client).
Proof.
  intros bucket client key file upload download.
  repeat apply conj;
    try (rewrite ?uploadFile_exchange, ?deleteObject_exchange,
           ?getObject_exchange, ?getInfo_exchange, ?listBuckets_exchange;
         apply exchange_propagates).
  - unfold presignedDownloadUrl, bind, awsSign.
    destruct (sign _ _) as [sr|e] eqn:Hs; cbn [fst snd ret app].
    + intros t i rest e' [= <- <- <-] He. rewrite Hs in He. discriminate.
    + intros t i rest e' [= <- <- <-] He. rewrite Hs in He.
      now injection He as <-.
  - unfold presignedDownloadUrl, bind, awsSign.
    destruct (sign _ _); cbn [fst snd ret app]; intros t i t' i' rest e' [=].
Qed.

(** X3. When the fetch is answered with a status outside 200..299,
    [uploadFile], [getObject], [listBuckets] and [getInfo] throw an [Error]
    whose message names the operation, the status code and the status text;
    nothing of the response is read. *)
Theorem remote_failures_rejected :
  forall (bucket : R2Bucket) (client : R2Client) (key : string)
         (file : FileContent) (upload : UploadFileOptions),
    rejectsFailure fetch "Upload"
      (uploadFile sign fetch bucket key file upload) /\
    rejectsFailure fetch "Get object" (getObject sign fetch bucket key) /\
    rejectsFailure fetch "Get bucket info" (getInfo sign fetch bucket) /\
    rejectsFailure fetch "List buckets" (listBuckets sign fetch client).
Proof.
  intros bucket client key file upload.
  assert (Hnot : forall r, ~ (200 <= status r <= 299)%Z -> ok r = false).
  { intros r Hr. destruct (ok r) eqn:E; [|reflexivity].
    now apply ok_range in E. }
  repeat apply conj;
    rewrite ?uploadFile_exchange, ?getObject_exchange, ?getInfo_exchange,
      ?listBuckets_exchange;
    apply exchange_rejectsFailure; intros r Hr; now rewrite (Hnot r Hr).
Qed.

End Exchanges.

(** ** A missing object *)

(** X4. When every request is answered with status 404, [objectExists]
    returns [false], [deleteObject] returns without raising, and [getObject]
    throws the error of a failed GET, whose message ends with the status
    text of the response that was fetched for the signed GET request. *)
Theorem missing_object :
  forall (sign : string -> RequestInit -> outcome SignedRequest)
         (fetch : string -> FetchInit -> outcome Response)
         (self : R2Bucket) (key : string),
    (forall target init, exists sr, sign target init = Return sr) ->
    (forall target init,
        exists r, fetch target init = Return r /\ status r = 404%Z) ->
    snd (objectExists sign fetch self key) = Return false /\
    snd (deleteObject sign fetch self key) = Return tt /\
    exists (sr : SignedRequest) (r : Response),
      sign (objectUrl self key) (headerSigned "GET") = Return sr /\
      fetch (url sr)
        {| fetchMethod := "GET";
           fetchHeaders := signedHeaders sr;
           fetchBody := None |} = Return r /\
      status r = 404%Z /\
      snd (getObject sign fetch self key)
      = Throw (Error ("Get object failed: 404 " ++ statusText r)).
Proof.
  intros sign fetch self key Hs Hf.
  assert (Hok : forall r, status r = 404%Z -> ok r = false).
  { intros r Hr. unfold ok. now rewrite Hr. }
  split; [|split].
  - unfold objectExists. rewrite headCheck_exchange.
    destruct (exchange_cases sign fetch (objectUrl self key)
                (headerSigned "HEAD") (fun response => ret (ok response)))
      as [(e & He & _) | [(sr & e & _ & He & _) | (sr & r & _ & Hr & ->)]].
    + destruct (Hs (objectUrl self key) (headerSigned "HEAD")) as [sr Hsr].
      rewrite Hsr in He. discriminate.
    + destruct (Hf (url sr)
                  {| fetchMethod := method (headerSigned "HEAD");
                     fetchHeaders := signedHeaders sr;
                     fetchBody := initBody (headerSigned "HEAD") |})
        as (r & Hr & _).
      rewrite Hr in He. discriminate.
    + destruct (Hf (url sr)
                  {| fetchMethod := method (headerSigned "HEAD");
                     fetchHeaders := signedHeaders sr;
                     fetchBody := initBody (headerSigned "HEAD") |})
        as (r' & Hr' & H404).
      rewrite Hr in Hr'. injection Hr' as <-.
      cbn. now rewrite (Hok r H404).
  - rewrite deleteObject_exchange.
    destruct (exchange_cases sign fetch (objectUrl self key)
                (headerSigned "DELETE")
                (fun response =>
                   if negb (ok response) && negb (status response =? 404)%Z
                   then throw (Error (failedMessage "Delete" response))
                   else ret tt))
      as [(e & He & _) | [(sr & e & _ & He & _) | (sr & r & _ & Hr & ->)]].
    + destruct (Hs (objectUrl self key) (headerSigned "DELETE"))
        as [sr Hsr].
      rewrite Hsr in He. discriminate.
    + destruct (Hf (url sr)
                  {| fetchMethod := method (headerSigned "DELETE");
                     fetchHeaders := signedHeaders sr;
                     fetchBody := initBody (headerSigned "DELETE") |})
        as (r & Hr & _).
      rewrite Hr in He. discriminate.
    + destruct (Hf (url sr)
                  {| fetchMethod := method (headerSigned "DELETE");
                     fetchHeaders := signedHeaders sr;
                     fetchBody := initBody (headerSigned "DELETE") |})
        as (r' & Hr' & H404).
      rewrite Hr in Hr'. injection Hr' as <-.
      rewrite (Hok r H404), H404. reflexivity.
  - rewrite getObject_exchange.
    destruct (exchange_cases sign fetch (objectUrl self key)
                (headerSigned "GET")
                (fun response =>
                   if negb (ok response)
                   then throw (Error (failedMessage "Get object" response))
                   else ret (describeObject key response)))
      as [(e & He & _) | [(sr & e & _ & He & _) | (sr & r & Hsr & Hr & ->)]].
    + destruct (Hs (objectUrl self key) (headerSigned "GET")) as [sr Hsr].
      rewrite Hsr in He. discriminate.
    + destruct (Hf (url sr)
                  {| fetchMethod := method (headerSigned "GET");
                     fetchHeaders := signedHeaders sr;
                     fetchBody := initBody (headerSigned "GET") |})
        as (r & Hr & _).
      rewrite Hr in He. discriminate.
    + destruct (Hf (url sr)
                  {| fetchMethod := method (headerSigned "GET");
                     fetchHeaders := signedHeaders sr;
                     fetchBody := initBody (headerSigned "GET") |})
        as (r' & Hr' & H404).
      rewrite Hr in Hr'. injection Hr' as <-.
      exists sr, r. split; [exact Hsr|]. split; [exact Hr|].
      split; [exact H404|].
      cbn [snd]. rewrite (Hok r H404). cbn [negb snd throw].
      unfold failedMessage. now rewrite H404.
Qed.

Lemma missing_object_witness :
  snd (objectExists signEcho
         (respond (sampleResponse 404 "Not Found" [] "")) gallery "gone.txt")
  = Return false /\
  snd (deleteObject signEcho
         (respond (sampleResponse 404 "Not Found" [] "")) gallery "gone.txt")
  = Return tt /\
  exists (sr : SignedRequest) (r : Response),
    signEcho (objectUrl gallery "gone.txt") (headerSigned "GET")
    = Return sr /\
    respond (sampleResponse 404 "Not Found" [] "") (url sr)
      {| fetchMethod := "GET";
         fetchHeaders := signedHeaders sr;
         fetchBody := None |} = Return r /\
    status r = 404%Z /\
    snd (getObject signEcho
           (respond (sampleResponse 404 "Not Found" [] "")) gallery "gone.txt")
    = Throw (Error ("Get object failed: 404 " ++ statusText r)).
Proof.
  apply (missing_object signEcho
           (respond (sampleResponse 404 "Not Found" [] "")) gallery "gone.txt").
  - intros target init. eexists. reflexivity.
  - intros target init. eexists. split; reflexivity.
Defined.

(** ** The size hint of [presignedUploadUrl] *)

(** X5. [maxFileSize] is advisory: with or without it the same request is
    signed and the call fails or succeeds alike; the value only shows in the
    result, where it is left out when it is 0. *)
Theorem maxFileSize_advisory :
  forall (sign : string -> RequestInit -> outcome SignedRequest)
         (self : R2Bucket) (options : PresignedUploadUrlOptions) (m : Z),
    let hinted :=
      presignedUploadUrl sign self (withMaxFileSize options (Some m)) in
    let plain :=
      presignedUploadUrl sign self (withMaxFileSize options None) in
    fst hinted = fst plain /\
    (forall e, snd plain = Throw e -> snd hinted = Throw e) /\
    (forall r,
        snd plain = Return r ->
        res_maxFileSize r = None /\
        snd hinted
        = Return {| res_url := res_url r;
                    res_key := res_key r;
                    res_contentType := res_contentType r;
                    res_expiresIn := res_expiresIn r;
                    res_metadata := res_metadata r;
                    res_maxFileSize :=
                      if (m =? 0)%Z then None else Some m;
                    res_allowedContentTypes :=
                      res_allowedContentTypes r |}).
Proof.
  intros sign self options m. cbv zeta.
  unfold presignedUploadUrl.
  cbn [withMaxFileSize opt_key opt_contentType opt_metadata opt_expiresIn
         opt_maxFileSize opt_allowedContentTypes].
  set (check := match opt_allowedContentTypes options with
                | Some allowed => _
                | None => _
                end).
  assert (Hcheck : check = ret tt \/ exists e, check = throw e).
  { subst check. destruct (opt_allowedContentTypes options) as [a|];
      [|now left].
    destruct (0 <? length a)%nat; [|now left].
    destruct (negb _); [right; eauto | now left]. }
  destruct Hcheck as [-> | [e ->]].
  - rewrite !bind_ret. unfold bind, awsSign.
    destruct (sign _ _) as [sr|e]; cbn [fst snd ret app].
    + split; [reflexivity|]. split; [discriminate|].
      intros r [= <-]. cbn. split; reflexivity.
    + split; [reflexivity|]. split; [trivial | discriminate].
  - cbn. split; [reflexivity|]. split; [trivial | discriminate].
Qed.

(** ** The headers of an upload *)

Lemma uploadHeaders_untouched (md : list (string * string))
  (init : gmap string string) (n : string) :
  (forall k v, In (k, v) md -> headerKey k <> n) ->
  fold_left addMetadataHeader md init !! n = init !! n.
Proof.
  revert init; induction md as [|[k0 v0] md IH]; intros init Hno;
    cbn [fold_left]; [reflexivity|].
  rewrite IH by (intros k v Hin; apply (Hno k v); now right).
  rewrite addMetadataHeader_lookup.
  rewrite decide_False; [reflexivity|]. apply (Hno k0 v0). now left.
Qed.

Lemma uploadHeaders_kept (md : list (string * string))
  (init : gmap string string) (n : string) :
  is_Some (init !! n) \/ (exists k v, In (k, v) md /\ headerKey k = n) ->
  is_Some (fold_left addMetadataHeader md init !! n).
Proof.
  revert init; induction md as [|[k0 v0] md IH]; intros init H;
    cbn [fold_left].
  - destruct H as [H | (k & v & [] & _)]. exact H.
  - apply IH. rewrite addMetadataHeader_lookup.
    destruct (decide (headerKey k0 = n)) as [E|NE]; [left; eauto|].
    destruct H as [H | (k & v & [Hin|Hin] & Hk)].
    + now left.
    + injection Hin as -> ->. contradiction.
    + right. eauto.
Qed.

Lemma uploadHeaders_size (md : list (string * string))
  (init : gmap string string) :
  size (fold_left addMetadataHeader md init) <= size init + length md.
Proof.
  revert init; induction md as [|[k0 v0] md IH]; intros init;
    cbn [fold_left length]; [lia|].
  etransitivity; [apply IH|].
  assert (size (addMetadataHeader init (k0, v0)) <= S (size init));
    [|lia].
  unfold addMetadataHeader, setProperty.
  destruct (String.eqb _ _); [lia|].
  rewrite map_size_insert. destruct (init !! headerKey k0); unfold id; lia.
Qed.

Lemma uploadHeaders_contentType (contentType : string)
  (metadata : list (string * string)) :
  uploadHeaders contentType metadata !! "Content-Type" = Some contentType.
Proof.
  unfold uploadHeaders.
  rewrite uploadHeaders_untouched; [apply lookup_singleton_eq|].
  intros k v _ E. pose proof (headerKey_prefixed k) as Hp.
  rewrite E in Hp. discriminate.
Qed.

(** X6. The headers that [presignedUploadUrl] and [uploadFile] have signed
    always hold the content type under [Content-Type], whatever the
    metadata: every other header name starts with [x-amz-meta-]. Every entry
    of the metadata has its header, and there are at most as many headers as
    entries, plus one. *)
Theorem uploadHeaders_shape :
  forall (contentType : string) (metadata : list (string * string)),
    let headers := uploadHeaders contentType metadata in
    headers !! "Content-Type" = Some contentType /\
    (forall n v,
        headers !! n = Some v ->
        (n = "Content-Type" /\ v = contentType) \/
        (JS.startsWith n "x-amz-meta-" = true /\
         exists k, In (k, v) metadata /\ headerKey k = n)) /\
    (forall k v,
        In (k, v) metadata ->
        is_Some (headers !! headerKey k) /\
        JS.startsWith (headerKey k) "x-amz-meta-" = true) /\
    size headers <= S (length metadata).
Proof.
  intros contentType metadata. cbv zeta.
  split; [apply uploadHeaders_contentType|].
  unfold uploadHeaders. split; [|split].
  - intros n v H.
    apply uploadHeaders_origin in H as [H | (k & Hin & <-)].
    + left. now apply lookup_singleton_Some in H.
    + right. split; [apply headerKey_prefixed | eauto].
  - intros k v Hin. split; [|apply headerKey_prefixed].
    apply uploadHeaders_kept. right. eauto.
  - etransitivity; [apply uploadHeaders_size|].
    rewrite map_size_singleton. lia.
Qed.

(** ** The location of a bucket *)

(** [parseLocationXml] reads the tag as [parseXmlTag] does. *)
Lemma parseLocationXml_parseXmlTag (xml : string) :
  parseLocationXml xml
  = match parseXmlTag xml "LocationConstraint" with
    | Some l => if String.eqb l "" then "auto" else l
    | None => "auto"
    end.
Proof.
  unfold parseLocationXml, parseXmlTag, JS.truthy.
  change {| Regex.opening := "<" ++ "LocationConstraint" ++ ">";
            Regex.class := Regex.notLt;
            Regex.lazy := false;
            Regex.closing := "</" ++ "LocationConstraint" ++ ">" |}
    with locationPattern.
  destruct (Regex.exec locationPattern xml) as [[capture rest]|];
    [|reflexivity].
  now destruct (String.eqb (JS.trim capture) "").
Qed.

Lemma parseLocationXml_nonempty (xml : string) : parseLocationXml xml <> "".
Proof.
  rewrite parseLocationXml_parseXmlTag.
  destruct (parseXmlTag xml "LocationConstraint") as [l|]; [|discriminate].
  destruct (String.eqb_spec l ""); [discriminate | assumption].
Qed.

(** X7. [parseLocationXml] never returns the empty string: it returns [auto]
    when [<LocationConstraint>] does not occur and when the text of the tag
    is blank, and the trimmed text of the first tag otherwise. *)
Theorem parseLocationXml_spec :
  (forall xml, parseLocationXml xml <> "") /\
  (forall xml,
      occursIn "<LocationConstraint>" xml = false ->
      parseLocationXml xml = "auto") /\
  (forall before n after,
      occursIn "<LocationConstraint>" before = false ->
      hasUnit "<" n = false ->
      parseLocationXml
        (before ++ "<LocationConstraint>" ++ n
         ++ "</LocationConstraint>" ++ after)
      = if String.eqb (JS.trim n) "" then "auto" else JS.trim n).
Proof.
  split; [exact parseLocationXml_nonempty|]. split.
  - intros xml Hno. rewrite parseLocationXml_parseXmlTag.
    now rewrite (parseXmlTag_none "LocationConstraint" xml eq_refl Hno).
  - intros before n after Hb Hn. rewrite parseLocationXml_parseXmlTag.
    assert (H : parseXmlTag
                  (before ++ "<LocationConstraint>" ++ n
                   ++ "</LocationConstraint>" ++ after)
                  "LocationConstraint" = Some (JS.trim n))
      by exact (parseXmlTag_found "LocationConstraint" before n after
                  eq_refl Hb Hn).
    now rewrite H.
Qed.

Lemma parseLocationXml_spec_witness :
  parseLocationXml "<LocationConstraint> weur </LocationConstraint>" = "weur"
  /\ parseLocationXml "<LocationConstraint/>" = "auto".
Proof.
  destruct parseLocationXml_spec as (_ & Hnone & Hfound). split.
  - apply (Hfound "" " weur " ""); reflexivity.
  - apply Hnone. reflexivity.
Defined.

(** X8. On a successful exchange [getInfo] returns the name of the handle
    and a location that is never empty; when the body cannot be read, the
    exception of [text()] is thrown by [getInfo], and by [listBuckets]
    alike. *)
Theorem getInfo_result :
  forall (sign : string -> RequestInit -> outcome SignedRequest)
         (fetch : string -> FetchInit -> outcome Response)
         (self : R2Bucket) (client : R2Client)
         (sr : SignedRequest) (r : Response),
    (200 <= status r <= 299)%Z ->
    (sign (baseUrl self ++ "/" ++ name self ++ "?location")
       (headerSigned "GET") = Return sr ->
     fetch (url sr)
       {| fetchMethod := "GET";
          fetchHeaders := signedHeaders sr;
          fetchBody := None |} = Return r ->
     match text r with
     | Return xml =>
         exists details,
           snd (getInfo sign fetch self) = Return details /\
           details_name details = getName self /\
           details_location details = parseLocationXml xml /\
           details_location details <> "" /\
           details_creationDate details = None
     | Throw e => snd (getInfo sign fetch self) = Throw e
     end)
    /\
    (sign (clientBaseUrl client) (headerSigned "GET") = Return sr ->
     fetch (url sr)
       {| fetchMethod := "GET";
          fetchHeaders := signedHeaders sr;
          fetchBody := None |} = Return r ->
     forall e, text r = Throw e ->
               snd (listBuckets sign fetch client) = Throw e).
Proof.
  intros sign fetch self client sr r Hok. apply ok_range in Hok. split.
  - intros Hs Hf. unfold getInfo.
    rewrite (bind_awsSign_return _ _ _ sr _ Hs). cbn [snd].
    rewrite (bind_doFetch_return _ _ _ r _ Hf). cbn [snd].
    rewrite Hok. cbn [negb]. unfold awaitText.
    destruct (text r) as [xml|e]; [|reflexivity].
    eexists. split; [reflexivity|]. cbn.
    repeat split. apply parseLocationXml_nonempty.
  - intros Hs Hf e He. unfold listBuckets.
    rewrite (bind_awsSign_return _ _ _ sr _ Hs). cbn [snd].
    rewrite (bind_doFetch_return _ _ _ r _ Hf). cbn [snd].
    rewrite Hok. cbn [negb]. unfold awaitText. now rewrite He.
Qed.

Lemma getInfo_result_witness :
  exists details,
    snd (getInfo signEcho
           (respond (sampleResponse 200 "OK" []
                       "<LocationConstraint></LocationConstraint>"))
           gallery) = Return details /\
    details_name details = "gallery" /\
    details_location details = "auto".
Proof.
  destruct (getInfo_result signEcho
              (respond (sampleResponse 200 "OK" []
                          "<LocationConstraint></LocationConstraint>"))
              gallery account
              {| url := "https://abc123.r2.cloudflarestorage.com/gallery?location";
                 signedHeaders := [] |}
              (sampleResponse 200 "OK" []
                 "<LocationConstraint></LocationConstraint>"))
    as [Hinfo _]; [cbn; lia|].
  destruct (Hinfo eq_refl eq_refl) as (details & Hd & Hname & Hloc & _).
  exists details. split; [exact Hd|]. split; [exact Hname|].
  rewrite Hloc. reflexivity.
Defined.

(** ** What a parsed listing holds *)

Lemma trimStart_fixed (c : ascii) (s : string) :
  JS.isWhiteSpace c = false -> JS.trimStart (String c s) = String c s.
Proof. intros H. cbn [JS.trimStart]. now rewrite H. Qed.

Lemma trimStart_cases (s : string) :
  JS.trimStart s = ""
  \/ exists c t, JS.trimStart s = String c t /\ JS.isWhiteSpace c = false.
Proof.
  induction s as [|c s IH]; [now left|]. cbn [JS.trimStart].
  destruct (JS.isWhiteSpace c) eqn:E; [exact IH|]. right. eauto.
Qed.

Lemma trimEnd_idem (s : string) : JS.trimEnd (JS.trimEnd s) = JS.trimEnd s.
Proof.
  induction s as [|c s IH]; [reflexivity|]. cbn [JS.trimEnd].
  destruct (JS.isWhiteSpace c && String.eqb (JS.trimEnd s) "") eqn:E;
    [reflexivity|].
  cbn [JS.trimEnd]. now rewrite IH, E.
Qed.

Lemma trimEnd_head (c : ascii) (s : string) :
  JS.isWhiteSpace c = false ->
  JS.trimEnd (String c s) = String c (JS.trimEnd s).
Proof. intros H. cbn [JS.trimEnd]. now rewrite H. Qed.

(** A trimmed string has no white space left at either end: trimming it
    again changes nothing. *)
Lemma trim_idem (s : string) : JS.trim (JS.trim s) = JS.trim s.
Proof.
  unfold JS.trim.
  destruct (trimStart_cases s) as [-> | (c & t & -> & Hc)]; [reflexivity|].
  rewrite (trimEnd_head _ _ Hc), (trimStart_fixed _ _ Hc).
  now rewrite <- (trimEnd_head _ _ Hc), trimEnd_idem.
Qed.

Lemma trimStart_clean (c : ascii) (s : string) :
  hasUnit c s = false -> hasUnit c (JS.trimStart s) = false.
Proof.
  induction s as [|a s IH]; intros H; [reflexivity|].
  cbn [JS.trimStart]. destruct (JS.isWhiteSpace a); [|exact H].
  cbn [hasUnit] in H. apply orb_false_iff in H as [_ H]. now apply IH.
Qed.

Lemma trimEnd_clean (c : ascii) (s : string) :
  hasUnit c s = false -> hasUnit c (JS.trimEnd s) = false.
Proof.
  induction s as [|a s IH]; intros H; [reflexivity|].
  cbn [hasUnit] in H. apply orb_false_iff in H as [Ha H].
  cbn [JS.trimEnd]. destruct (_ && _); [reflexivity|].
  cbn [hasUnit]. now rewrite Ha, IH.
Qed.

Lemma trim_clean (c : ascii) (s : string) :
  hasUnit c s = false -> hasUnit c (JS.trim s) = false.
Proof. intros H. now apply trimEnd_clean, trimStart_clean. Qed.

(** The capture of a greedy run of units other than [<] holds no [<]. *)
Lemma greedyRun_clean (close s cap rest : string) :
  Regex.greedyRun Regex.notLt close s = Some (cap, rest) ->
  hasUnit "<" cap = false.
Proof.
  revert cap; induction s as [|c s IH]; intros cap H;
    cbn [Regex.greedyRun] in H.
  - destruct (Regex.literal close ""); [|discriminate].
    now injection H as <- _.
  - assert (Hstop : match Regex.literal close (String c s) with
                    | Some rest0 => Some ("", rest0)
                    | None => None
                    end = Some (cap, rest) -> hasUnit "<" cap = false).
    { destruct (Regex.literal close (String c s)); [|discriminate].
      now intros [= <- _]. }
    destruct (Regex.notLt c) eqn:Hc; [|now apply Hstop].
    destruct (Regex.greedyRun Regex.notLt close s) as [[cap' rest']|]
      eqn:E; [|now apply Hstop].
    injection H as <- <-. cbn [hasUnit]. rewrite (IH _ eq_refl).
    unfold Regex.notLt in Hc. now destruct (Ascii.eqb c "<").
Qed.

Lemma exec_clean (re : Regex.regex) (s cap rest : string) :
  Regex.class re = Regex.notLt ->
  Regex.lazy re = false ->
  Regex.exec re s = Some (cap, rest) ->
  hasUnit "<" cap = false.
Proof.
  intros Hclass Hlazy.
  assert (Hat : forall t, Regex.execAt re t = Some (cap, rest) ->
                          hasUnit "<" cap = false).
  { intros t H. unfold Regex.execAt in H. rewrite Hclass, Hlazy in H.
    destruct (Regex.literal _ _) as [s1|]; [|discriminate].
    exact (greedyRun_clean _ _ _ _ H). }
  induction s as [|c s IH]; cbn [Regex.exec]; intros E.
  - destruct (Regex.execAt re "") as [r|] eqn:Ea; [|discriminate].
    injection E as ->. now apply (Hat "").
  - destruct (Regex.execAt re (String c s)) as [r|] eqn:Ea.
    + injection E as ->. now apply (Hat (String c s)).
    + now apply IH.
Qed.

(** The text that [parseXmlTag] returns holds no [<] and is trimmed. *)
Lemma parseXmlTag_clean (xml tag t : string) :
  parseXmlTag xml tag = Some t ->
  hasUnit "<" t = false /\ JS.trim t = t.
Proof.
  unfold parseXmlTag.
  set (re := {| Regex.opening := _; Regex.class := Regex.notLt;
                Regex.lazy := false; Regex.closing := _ |}).
  destruct (Regex.exec re xml) as [[capture rest]|] eqn:E; [|discriminate].
  intros [= <-]. split; [|apply trim_idem]. apply trim_clean.
  exact (exec_clean re xml capture rest eq_refl eq_refl E).
Qed.

Lemma in_omap_describeBlock (contents : list string) (b : BucketInfo) :
  In b (omap describeBlock contents) ->
  exists content, In content contents /\ describeBlock content = Some b.
Proof.
  induction contents as [|c cs IH]; cbn [omap list_omap]; [contradiction|].
  destruct (describeBlock c) as [b'|] eqn:E.
  - intros [<-|Hin]; [exists c; split; [now left | exact E]|].
    destruct (IH Hin) as (content & Hc & Hd). exists content.
    split; [now right | exact Hd].
  - intros Hin. destruct (IH Hin) as (content & Hc & Hd). exists content.
    split; [now right | exact Hd].
Qed.

(** X9. Whatever the body, every descriptor that [parseBucketsXml] returns
    has a name that is not empty, holds no [<] and has no white space at
    either end, has the location [auto], and has a creation date only when
    the text of [<CreationDate>] is not blank; and there are no more
    descriptors than matches of the bucket pattern. *)
Theorem parseBucketsXml_names :
  forall xml : string,
    (forall b,
        In b (parseBucketsXml xml) ->
        bucket_name b <> "" /\
        hasUnit "<" (bucket_name b) = false /\
        JS.trim (bucket_name b) = bucket_name b /\
        bucket_location b = "auto" /\
        forall d,
          bucket_creationDate b = Some d ->
          exists t, d = DateOf t /\ t <> "" /\ JS.trim t = t) /\
    length (parseBucketsXml xml)
    <= length (Regex.matchAll bucketPattern xml).
Proof.
  intros xml. unfold parseBucketsXml. rewrite fold_pushBucket.
  cbn [app]. split.
  - intros b Hin.
    apply in_omap_describeBlock in Hin as (content & _ & Hd).
    unfold describeBlock in Hd.
    destruct (parseXmlTag content "Name") as [n|] eqn:Hn; [|discriminate].
    destruct (String.eqb_spec n "") as [|Hne]; [discriminate|].
    injection Hd as <-. cbn.
    destruct (parseXmlTag_clean _ _ _ Hn) as [Hclean Htrim].
    repeat split; try assumption.
    intros d.
    destruct (parseXmlTag content "CreationDate") as [t|] eqn:Ht;
      [|discriminate].
    destruct (String.eqb_spec t "") as [|Hte]; [discriminate|].
    intros [= <-]. exists t.
    repeat split; [assumption|]. exact (proj2 (parseXmlTag_clean _ _ _ Ht)).
  - generalize (Regex.matchAll bucketPattern xml) as contents.
    induction contents as [|c cs IH]; cbn [omap list_omap length]; [lia|].
    destruct (describeBlock c); cbn [length]; lia.
Qed.

(** ** The result of an upload *)

Lemma utf8_length (s : string) :
  String.length (utf8 s) = String.length s + nonAscii s.
Proof.
  induction s as [|c s IH]; [reflexivity|]. cbn [utf8 nonAscii].
  destruct (nat_of_ascii c <? 128)%nat; cbn [String.length]; lia.
Qed.

Lemma etagOf_some (h : headerList) (e : string) :
  etagOf h = Some e -> e <> "" /\ hasUnit dquote e = false.
Proof.
  unfold etagOf.
  destruct (Headers_get h "ETag") as [v|]; [|discriminate].
  cbn. unfold JS.truthy.
  destruct (String.eqb_spec (JS.removeAll dquote v) "") as [|Hne];
    [discriminate|].
  intros [= <-]. split; [exact Hne | apply removeAll_clean].
Qed.

(** X10. When the PUT of [uploadFile] is answered with a status from 200 to
    299, the result carries the key and the content type it was given, and
    its [fileSize] is the number of bytes of the body that was sent: the
    size of a blob, which is sent as it is, the length of a buffer, and for
    a string its length plus one for every code unit that is not ASCII. An
    [etag] in the result is not empty and holds no quotation mark. *)
Theorem uploadFile_result :
  forall (sign : string -> RequestInit -> outcome SignedRequest)
         (fetch : string -> FetchInit -> outcome Response)
         (self : R2Bucket) (key : string) (file : FileContent)
         (options : UploadFileOptions)
         (target target' : string) (init : RequestInit)
         (init' : FetchInit) (r : Response),
    fst (uploadFile sign fetch self key file options)
    = [Signed target init; Fetched target' init'] ->
    fetch target' init' = Return r ->
    (200 <= status r <= 299)%Z ->
    exists result body,
      snd (uploadFile sign fetch self key file options) = Return result /\
      upl_key result = key /\
      upl_contentType result = up_contentType options /\
      fetchBody init' = Some body /\
      initBody init = Some body /\
      upl_fileSize result = blobSize body /\
      upl_fileSize result
      = match file with
        | FileBlob b => blobSize b
        | FileArrayBuffer bytes => Z.of_nat (String.length bytes)
        | FileString s => Z.of_nat (String.length s + nonAscii s)
        end /\
      (forall b, file = FileBlob b -> body = b) /\
      (forall e, upl_etag result = Some e ->
                 e <> "" /\ hasUnit dquote e = false).
Proof.
  intros sign fetch self key file options target target' init init' r.
  rewrite uploadFile_exchange.
  match goal with
  | |- context [exchange sign fetch ?t ?i ?k] =>
      destruct (exchange_cases sign fetch t i k)
        as [(e & _ & ->)
           | [(sr & e & _ & Hf & ->) | (sr & r' & _ & Hf & ->)]]
  end; cbn [fst snd].
  - intros [=].
  - intros [= <- <- <- <-] Hr. cbn in Hr, Hf. rewrite Hf in Hr.
    discriminate.
  - intros Htrace Hr Hok. apply ok_range in Hok.
    injection Htrace as <- <- <- <- _. cbn in Hr, Hf.
    rewrite Hf in Hr. injection Hr as ->. rewrite Hok. cbn [negb snd ret].
    eexists. exists (toBlob file (up_contentType options)).
    split; [reflexivity|]. cbn.
    repeat split.
    + destruct file as [b|bytes|s]; cbn; try reflexivity.
      unfold blobSize. cbn. now rewrite utf8_length.
    + now intros b ->.
    + now apply etagOf_some in H.
    + now apply etagOf_some in H.
Qed.

Lemma uploadFile_result_witness :
  exists result,
    snd (uploadFile signEcho
           (respond (sampleResponse 200 "OK" [("etag", quotedTag)] ""))
           gallery "file.txt" (FileString "content")
           {| up_contentType := "text/plain"; up_metadata := None |})
    = Return result /\
    upl_fileSize result = 7%Z /\
    upl_key result = "file.txt".
Proof.
  destruct (uploadFile_result signEcho
              (respond (sampleResponse 200 "OK" [("etag", quotedTag)] ""))
              gallery "file.txt" (FileString "content")
              {| up_contentType := "text/plain"; up_metadata := None |}
              _ _ _ _
              (sampleResponse 200 "OK" [("etag", quotedTag)] "")
              eq_refl eq_refl)
    as (result & body & Hres & Hkey & _ & _ & _ & _ & Hsize & _);
    [cbn; lia|].
  exists result. split; [exact Hres|]. split; [exact Hsize | exact Hkey].
Defined.

(** ** The requests that are signed *)

Lemma exchange_signedWith {B : Type}
  (sign : string -> RequestInit -> outcome SignedRequest)
  (fetch : string -> FetchInit -> outcome Response)
  (p : string -> RequestInit -> Prop)
  (target : string) (init : RequestInit) (k : Response -> IO B) :
  (forall r, fst (k r) = []) ->
  p target init ->
  signedWith p (fst (exchange sign fetch target init k)).
Proof.
  intros Hk Hp t i.
  destruct (exchange_cases sign fetch target init k)
    as [(e & _ & ->) | [(sr & e & _ & _ & ->) | (sr & r & _ & _ & ->)]];
    cbn [fst]; rewrite ?Hk; cbn [In];
    intros [[= <- <-] | H]; try exact Hp; try contradiction;
    destruct H as [[=] | []].
Qed.

Lemma under_bucket (self : R2Bucket) (suffix : string) :
  JS.startsWith (baseUrl self ++ "/" ++ name self ++ suffix)
    (baseUrl self ++ "/" ++ name self) = true.
Proof.
  replace (baseUrl self ++ "/" ++ name self ++ suffix)
    with ((baseUrl self ++ "/" ++ name self) ++ suffix)
    by (rewrite !append_assoc; reflexivity).
  apply startsWith_append.
Qed.

(** X11. Every request that a bucket handle has signed is for a URL under
    [baseUrl/name] of the handle, and [listBuckets] signs the base URL of
    the client: the pre-signed URLs are signed in the query string, PUT for
    an upload and GET for a download, and every operation that reaches the
    network is signed in the headers, with HEAD for the two checks, PUT for
    [uploadFile], DELETE for [deleteObject] and GET for [getObject],
    [getInfo] and [listBuckets]. Both uploads ask for all the headers to be
    signed, the content type among them. A handle made by
    [client.bucket(name)] has the base URL of the client, which is
    [https://accountId.r2.cloudflarestorage.com]. *)
Theorem requests_conform :
  forall (sign : string -> RequestInit -> outcome SignedRequest)
         (fetch : string -> FetchInit -> outcome Response)
         (self : R2Bucket) (client : R2Client) (key : string)
         (file : FileContent) (upload : UploadFileOptions)
         (presign : PresignedUploadUrlOptions)
         (download : PresignedDownloadUrlOptions),
    let prefix := baseUrl self ++ "/" ++ name self in
    signedWith (requestOf prefix "PUT" true)
      (fst (presignedUploadUrl sign self presign)) /\
    signedWith (requestOf prefix "GET" true)
      (fst (presignedDownloadUrl sign self key download)) /\
    signedWith (requestOf prefix "HEAD" false)
      (fst (exists_ sign fetch self)) /\
    signedWith (requestOf prefix "HEAD" false)
      (fst (objectExists sign fetch self key)) /\
    signedWith (requestOf prefix "PUT" false)
      (fst (uploadFile sign fetch self key file upload)) /\
    signedWith (requestOf prefix "DELETE" false)
      (fst (deleteObject sign fetch self key)) /\
    signedWith (requestOf prefix "GET" false)
      (fst (getObject sign fetch self key)) /\
    signedWith (requestOf prefix "GET" false)
      (fst (getInfo sign fetch self)) /\
    signedWith (requestOf (clientBaseUrl client) "GET" false)
      (fst (listBuckets sign fetch client)) /\
    signedWith
      (fun _ init =>
         allHeaders (aws init) = Some true /\
         exists headers,
           initHeaders init = Some headers /\
           headers !! "Content-Type" = Some (opt_contentType presign))
      (fst (presignedUploadUrl sign self presign)) /\
    signedWith
      (fun _ init =>
         allHeaders (aws init) = Some true /\
         exists headers,
           initHeaders init = Some headers /\
           headers !! "Content-Type" = Some (up_contentType upload))
      (fst (uploadFile sign fetch self key file upload)) /\
    (forall accountId bucketName,
        getBaseUrl (newR2Client accountId)
        = "https://" ++ accountId ++ ".r2.cloudflarestorage.com" /\
        baseUrl (bucket (newR2Client accountId) bucketName)
        = getBaseUrl (newR2Client accountId) /\
        getName (bucket (newR2Client accountId) bucketName) = bucketName).
Proof.
  intros sign fetch self client key file upload presign download prefix.
  assert (Hpre : forall (p : string -> RequestInit -> Prop),
             (forall init,
                 method init = "PUT" ->
                 signQuery (aws init) = true ->
                 allHeaders (aws init) = Some true ->
                 initHeaders init
                 = Some (uploadHeaders (opt_contentType presign)
                           (default [] (opt_metadata presign))) ->
                 p (objectUrl self (opt_key presign)) init) ->
             signedWith p (fst (presignedUploadUrl sign self presign))).
  { intros p Hp. unfold presignedUploadUrl.
    set (check := match opt_allowedContentTypes presign with
                  | Some allowed => _
                  | None => _
                  end).
    assert (Hcheck : check = ret tt \/ exists e, check = throw e).
    { subst check. destruct (opt_allowedContentTypes presign) as [a|];
        [|now left].
      destruct (0 <? length a)%nat; [|now left].
      destruct (negb _); [right; eauto | now left]. }
    destruct Hcheck as [-> | [e ->]]; [|intros t i []].
    rewrite bind_ret. unfold bind, awsSign.
    destruct (sign _ _); cbn [fst ret app];
      intros t i [[= <- <-] | []]; now apply Hp. }
  assert (Hsilent : forall r : Response, fst (ret (ok r)) = [])
    by reflexivity.
  subst prefix.
  repeat apply conj.
  - apply Hpre. intros init Hm Hq _ _.
    split; [apply under_bucket | now split].
  - unfold presignedDownloadUrl, bind, awsSign.
    destruct (sign _ _); cbn [fst ret app];
      intros t i [[= <- <-] | []];
      (split; [apply under_bucket | now split]).
  - unfold exists_. rewrite headCheck_exchange, tryCatch_trace.
    apply exchange_signedWith; [exact Hsilent|].
    split; [apply (under_bucket self "/") | now split].
  - unfold objectExists. rewrite headCheck_exchange, tryCatch_trace.
    apply exchange_signedWith; [exact Hsilent|].
    split; [apply under_bucket | now split].
  - rewrite uploadFile_exchange. apply exchange_signedWith; [silent|].
    split; [apply under_bucket | now split].
  - rewrite deleteObject_exchange. apply exchange_signedWith; [silent|].
    split; [apply under_bucket | now split].
  - rewrite getObject_exchange. apply exchange_signedWith; [silent|].
    split; [apply under_bucket | now split].
  - rewrite getInfo_exchange. apply exchange_signedWith; [silent|].
    split; [apply under_bucket | now split].
  - rewrite listBuckets_exchange. apply exchange_signedWith; [silent|].
    split; [|now split].
    rewrite <- (append_nil_r (clientBaseUrl client)) at 1.
    apply startsWith_append.
  - apply Hpre. intros init _ _ Hall Hh. split; [exact Hall|].
    eexists. split; [exact Hh|]. apply uploadHeaders_contentType.
  - rewrite uploadFile_exchange. apply exchange_signedWith; [silent|].
    split; [reflexivity|]. eexists. split; [reflexivity|].
    apply uploadHeaders_contentType.
  - intros accountId bucketName. repeat split.
Qed.

(** ** Every body is a document *)

(** Where the lazy run stops: the capture is followed by the closing
    literal, which does not occur in it. *)
Lemma lazyRun_inv (a : ascii) (q s cap rest : string) :
  Regex.lazyRun Regex.anyUnit (String a q) s = Some (cap, rest) ->
  s = cap ++ String a q ++ rest /\ occursIn (String a q) cap = false.
Proof.
  revert cap; induction s as [|c s IH]; intros cap H;
    cbn [Regex.lazyRun] in H.
  - discriminate.
  - destruct (Regex.literal (String a q) (String c s)) as [r|] eqn:El.
    + injection H as <- ->. split; [|reflexivity].
      exact (literal_inv _ _ _ El).
    + cbn [Regex.anyUnit] in H.
      destruct (Regex.lazyRun Regex.anyUnit (String a q) s)
        as [[cap' rest']|] eqn:E; [|discriminate].
      injection H as <- ->.
      destruct (IH _ eq_refl) as [Hs Hno]. split.
      * now rewrite Hs.
      * cbn [occursIn]. rewrite Hno, orb_false_r.
        destruct (JS.startsWith (String c cap') (String a q)) eqn:Est;
          [|reflexivity].
        apply startsWith_inv in Est as [z Hz].
        assert (Hfull : String c s
                        = String a q ++ z ++ String a q ++ rest).
        { change (String c s) with (String c "" ++ s). rewrite Hs.
          change (String c "" ++ cap' ++ String a q ++ rest)
            with (String c cap' ++ String a q ++ rest).
          now rewrite Hz, append_assoc. }
        rewrite Hfull, literal_append in El. discriminate.
Qed.

(** The lazy run finds the closing literal when it is there. *)
Lemma lazyRun_complete (close x y : string) :
  Regex.lazyRun Regex.anyUnit close (x ++ close ++ y) <> None.
Proof.
  induction x as [|c x IH].
  - change ("" ++ close ++ y) with (close ++ y).
    destruct (close ++ y) as [|b t] eqn:E.
    + destruct close; [|discriminate]. cbn. discriminate.
    + cbn [Regex.lazyRun]. rewrite <- E, literal_append. discriminate.
  - change (String c x ++ close ++ y) with (String c (x ++ close ++ y)).
    cbn [Regex.lazyRun].
    destruct (Regex.literal close _); [discriminate|].
    cbn [Regex.anyUnit].
    destruct (Regex.lazyRun Regex.anyUnit close (x ++ close ++ y))
      as [[cap rest]|]; [discriminate | contradiction].
Qed.

Lemma execAt_bucket_complete (y z : string) :
  Regex.execAt bucketPattern ("<Bucket>" ++ y ++ "</Bucket>" ++ z) <> None.
Proof.
  unfold Regex.execAt.
  cbn [bucketPattern Regex.opening Regex.lazy Regex.class Regex.closing].
  rewrite literal_append. apply lazyRun_complete.
Qed.

(** A text that holds a complete block has a match. *)
Lemma exec_bucket_complete (x y z : string) :
  Regex.exec bucketPattern (x ++ "<Bucket>" ++ y ++ "</Bucket>" ++ z)
  <> None.
Proof.
  induction x as [|c x IH].
  - change ("" ++ "<Bucket>" ++ y ++ "</Bucket>" ++ z)
      with (String "<" ("Bucket>" ++ y ++ "</Bucket>" ++ z)).
    cbn [Regex.exec].
    change (String "<" ("Bucket>" ++ y ++ "</Bucket>" ++ z))
      with ("<Bucket>" ++ y ++ "</Bucket>" ++ z).
    pose proof (execAt_bucket_complete y z) as H.
    destruct (Regex.execAt bucketPattern _); [discriminate | contradiction].
  - change (String c x ++ "<Bucket>" ++ y ++ "</Bucket>" ++ z)
      with (String c (x ++ "<Bucket>" ++ y ++ "</Bucket>" ++ z)).
    cbn [Regex.exec].
    destruct (Regex.execAt bucketPattern _); [discriminate | exact IH].
Qed.

(** What a match of the bucket pattern tells about the text. *)
Lemma exec_bucket_inv (s content rest : string) :
  Regex.exec bucketPattern s = Some (content, rest) ->
  exists before,
    s = before ++ "<Bucket>" ++ content ++ "</Bucket>" ++ rest /\
    occursIn "<Bucket>" before = false /\
    occursIn "</Bucket>" content = false.
Proof.
  assert (Hat : forall t,
             Regex.execAt bucketPattern t = Some (content, rest) ->
             t = "<Bucket>" ++ content ++ "</Bucket>" ++ rest /\
             occursIn "</Bucket>" content = false).
  { intros t H. unfold Regex.execAt in H.
    cbn [bucketPattern Regex.opening Regex.lazy Regex.class Regex.closing]
      in H.
    destruct (Regex.literal "<Bucket>" t) as [s1|] eqn:El; [|discriminate].
    apply literal_inv in El. apply lazyRun_inv in H as [Hs Hno].
    split; [now rewrite El, Hs | exact Hno]. }
  induction s as [|c s IH]; cbn [Regex.exec]; intros H.
  - destruct (Regex.execAt bucketPattern "") as [p|] eqn:E; [|discriminate].
    injection H as ->. destruct (Hat _ E) as [Hs Hno]. discriminate Hs.
  - destruct (Regex.execAt bucketPattern (String c s)) as [p|] eqn:E.
    + injection H as ->. destruct (Hat _ E) as [Hs Hno].
      exists "". now repeat split.
    + destruct (IH H) as (before & Hs & Hb & Hc).
      exists (String c before). split; [now rewrite Hs|].
      split; [|exact Hc].
      cbn [occursIn]. rewrite Hb, orb_false_r.
      destruct (JS.startsWith (String c before) "<Bucket>") eqn:Est;
        [|reflexivity].
      exfalso. apply startsWith_inv in Est as [z Hz].
      assert (Hfull : String c s
                      = "<Bucket>" ++ (z ++ "<Bucket>" ++ content)
                        ++ "</Bucket>" ++ rest).
      { change (String c s) with (String c "" ++ s). rewrite Hs.
        change (String c ""
                ++ before ++ "<Bucket>" ++ content ++ "</Bucket>" ++ rest)
          with (String c before
                ++ "<Bucket>" ++ content ++ "</Bucket>" ++ rest).
        rewrite Hz, !append_assoc. reflexivity. }
      rewrite Hfull in E. now apply execAt_bucket_complete in E.
Qed.

Lemma matchAllFrom_document (fuel : nat) (s : string) :
  String.length s < fuel ->
  exists blocks tail,
    s = document blocks tail /\
    Forall (fun b => occursIn "<Bucket>" (fst b) = false /\
                     occursIn "</Bucket>" (snd b) = false) blocks /\
    Regex.exec bucketPattern tail = None /\
    Regex.matchAllFrom fuel bucketPattern s = map snd blocks.
Proof.
  revert s; induction fuel as [|fuel IH]; intros s Hlen; [lia|].
  cbn [Regex.matchAllFrom].
  destruct (Regex.exec bucketPattern s) as [[content rest]|] eqn:E.
  - pose proof (exec_shrinks bucketPattern _ _ _ ltac:(discriminate) E)
      as Hshort.
    destruct (exec_bucket_inv _ _ _ E) as (before & Hs & Hb & Hc).
    destruct (IH rest ltac:(lia)) as (blocks & tail & Hr & Hall & Ht & Hm).
    exists ((before, content) :: blocks), tail.
    split; [cbn [document]; now rewrite <- Hr|].
    split; [constructor; [now split | exact Hall]|].
    split; [exact Ht|]. cbn [map snd]. now rewrite Hm.
  - exists [], s. repeat split; [constructor | exact E].
Qed.

(** X12. Every body is a document, in one way that the matcher finds: its
    blocks are taken from left to right and do not overlap, each starts at
    the first [<Bucket>] that follows the previous block and ends at the
    first [</Bucket>] after it, and what follows the last block holds no
    complete block. [parseBucketsXml] returns the descriptors of these
    blocks. *)
Theorem body_is_document :
  forall xml : string,
    exists blocks tail,
      xml = document blocks tail /\
      Forall (fun b => occursIn "<Bucket>" (fst b) = false /\
                       occursIn "</Bucket>" (snd b) = false) blocks /\
      (forall x y z, tail <> x ++ "<Bucket>" ++ y ++ "</Bucket>" ++ z) /\
      Regex.matchAll bucketPattern xml = map snd blocks /\
      parseBucketsXml xml = omap describeBlock (map snd blocks).
Proof.
  intros xml.
  destruct (matchAllFrom_document (S (String.length xml)) xml ltac:(lia))
    as (blocks & tail & Hs & Hall & Ht & Hm).
  exists blocks, tail. split; [exact Hs|]. split; [exact Hall|].
  split; [|split].
  - intros x y z ->. now apply exec_bucket_complete in Ht.
  - exact Hm.
  - unfold parseBucketsXml, Regex.matchAll. rewrite Hm, fold_pushBucket.
    reflexivity.
Qed.

(** ** The content type chosen by the upload tool *)

Lemma split_nonempty (s : string) (c : ascii) : split s c <> [].
Proof.
  destruct s as [|a s]; cbn [split]; [discriminate|].
  destruct (Ascii.eqb a c); [discriminate|].
  destruct (split s c); discriminate.
Qed.

Lemma split_whole (s : string) (c : ascii) :
  hasUnit c s = false -> split s c = [s].
Proof.
  induction s as [|a s IH]; intros H; [reflexivity|].
  cbn [hasUnit] in H. apply orb_false_iff in H as [Ha H].
  cbn [split]. now rewrite Ha, (IH H).
Qed.

Lemma pop_cons (x : string) (xs : list string) :
  xs <> [] -> pop (x :: xs) = pop xs.
Proof. destruct xs; [contradiction | reflexivity]. Qed.

Lemma pop_head (a : ascii) (x : string) (xs : list string) :
  xs <> [] -> pop (String a x :: xs) = pop (x :: xs).
Proof. destruct xs; [contradiction | reflexivity]. Qed.

Lemma split_two (stem ext : string) (c : ascii) :
  exists x y ys, split (stem ++ String c ext) c = x :: y :: ys.
Proof.
  induction stem as [|a stem IH].
  - change ("" ++ String c ext) with (String c ext). cbn [split].
    rewrite Ascii.eqb_refl.
    destruct (split ext c) as [|y ys] eqn:E;
      [now apply split_nonempty in E | eauto].
  - change (String a stem ++ String c ext)
      with (String a (stem ++ String c ext)).
    cbn [split]. destruct IH as (x & y & ys & ->).
    destruct (Ascii.eqb a c); eauto.
Qed.

(** What follows the last separator is the last segment. *)
Lemma pop_split_last (stem ext : string) (c : ascii) :
  hasUnit c ext = false ->
  pop (split (stem ++ String c ext) c) = Some ext.
Proof.
  intros Hext. induction stem as [|a stem IH].
  - change ("" ++ String c ext) with (String c ext). cbn [split].
    rewrite Ascii.eqb_refl, (split_whole _ _ Hext). reflexivity.
  - change (String a stem ++ String c ext)
      with (String a (stem ++ String c ext)).
    cbn [split]. destruct (split_two stem ext c) as (x & y & ys & E).
    rewrite E in IH |- *.
    destruct (Ascii.eqb a c).
    + now rewrite pop_cons by discriminate.
    + rewrite pop_head by discriminate. exact IH.
Qed.

Lemma lowerUnit_dot (c : ascii) :
  Ascii.eqb (JS.lowerUnit c) "." = Ascii.eqb c ".".
Proof. destruct c as [[] [] [] [] [] [] [] []]; reflexivity. Qed.

Lemma toLowerCase_dots (s : string) :
  hasUnit "." (JS.toLowerCase s) = hasUnit "." s.
Proof.
  induction s as [|c s IH]; [reflexivity|].
  cbn [JS.toLowerCase hasUnit]. now rewrite lowerUnit_dot, IH.
Qed.

Lemma extensionOf_last (stem ext : string) :
  hasUnit "." ext = false ->
  extensionOf (stem ++ "." ++ ext) = JS.toLowerCase ext.
Proof.
  intros H. unfold extensionOf.
  change (stem ++ "." ++ ext) with (stem ++ String "." ext).
  now rewrite (pop_split_last _ _ _ H).
Qed.

Lemma extensionOf_whole (filename : string) :
  hasUnit "." filename = false ->
  extensionOf filename = JS.toLowerCase filename.
Proof. intros H. unfold extensionOf. now rewrite (split_whole _ _ H). Qed.

Lemma extensionOf_lowercase (filename : string) :
  JS.toLowerCase (extensionOf filename) = extensionOf filename.
Proof.
  unfold extensionOf. destruct (pop _); [apply toLowerCase_idem | reflexivity].
Qed.

(** X15. [getMimeType] looks only at what follows the last dot of the name,
    and at the whole name when it has no dot, without regard to case. Unless
    that extension is [constructor] or [__proto__], the result is a string
    that is not empty: the entry of the table for the extension, or
    [application/octet-stream] when the table has none. For these two
    extensions the result is no string but the member that the table
    inherits from [Object.prototype]. *)
Theorem getMimeType_spec :
  (forall stem ext,
      hasUnit "." ext = false ->
      getMimeType (stem ++ "." ++ ext) = getMimeType (JS.toLowerCase ext) /\
      getMimeType ext = getMimeType (JS.toLowerCase ext)) /\
  (forall filename,
      extensionOf filename <> "constructor" ->
      extensionOf filename <> "__proto__" ->
      exists mime,
        getMimeType filename = OwnString mime /\
        mime <> "" /\
        (In (extensionOf filename, mime) mimeTypes \/
         (mime = "application/octet-stream" /\
          forall m, ~ In (extensionOf filename, m) mimeTypes))) /\
  (forall stem,
      getMimeType (stem ++ ".constructor") = Inherited "constructor" /\
      getMimeType (stem ++ ".__proto__") = Inherited "__proto__").
Proof.
  split; [|split].
  - intros stem ext H.
    assert (Hlow : extensionOf (JS.toLowerCase ext) = JS.toLowerCase ext).
    { rewrite extensionOf_whole by (now rewrite toLowerCase_dots).
      apply toLowerCase_idem. }
    unfold getMimeType.
    now rewrite (extensionOf_last _ _ H), (extensionOf_whole _ H), Hlow.
  - intros filename Hc Hp. unfold getMimeType, getProperty.
    pose proof (extensionOf_lowercase filename) as Hlow.
    set (ext := extensionOf filename) in *.
    destruct (find (fun e => String.eqb (fst e) ext) mimeTypes)
      as [[k v]|] eqn:Ef.
    + apply find_some in Ef as [Hin Hk]. cbn [fst snd] in *.
      apply String.eqb_eq in Hk. subst k.
      assert (Hv : JS.truthy v = true).
      { clear -Hin. unfold mimeTypes in Hin. cbn [In] in Hin.
        repeat (destruct Hin as [[= _ <-] | Hin]; [reflexivity|]).
        contradiction. }
      rewrite Hv. exists v. split; [reflexivity|]. split; [|now left].
      intros ->. discriminate Hv.
    + destruct (existsb (String.eqb ext) objectPrototype) eqn:Ee.
      * exfalso. apply existsb_exists in Ee as (member & Hin & Hm).
        apply String.eqb_eq in Hm. subst member.
        unfold objectPrototype in Hin. cbn [In] in Hin.
        repeat (destruct Hin as [E | Hin];
                [rewrite <- E in Hlow, Hc, Hp;
                 first [now apply Hc | now apply Hp | discriminate Hlow]|]).
        contradiction.
      * exists "application/octet-stream".
        split; [reflexivity|]. split; [discriminate|]. right.
        split; [reflexivity|]. intros m Hin.
        pose proof (find_none _ _ Ef _ Hin) as Hno. cbn [fst] in Hno.
        now rewrite String.eqb_refl in Hno.
  - intros stem. unfold getMimeType.
    change (stem ++ ".constructor") with (stem ++ "." ++ "constructor").
    change (stem ++ ".__proto__") with (stem ++ "." ++ "__proto__").
    rewrite !extensionOf_last by reflexivity. split; reflexivity.
Qed.

Lemma getMimeType_spec_witness :
  getMimeType "holiday.photo.PNG" = OwnString "image/png" /\
  getMimeType "png" = OwnString "image/png" /\
  getMimeType "notes" = OwnString "application/octet-stream".
Proof.
  destruct getMimeType_spec as (Hext & Hstr & _). split; [|split].
  - etransitivity;
      [exact (proj1 (Hext "holiday.photo" "PNG" eq_refl)) | reflexivity].
  - etransitivity; [exact (proj2 (Hext "" "png" eq_refl)) | reflexivity].
  - destruct (Hstr "notes") as (mime & Hm & _ & [Hin | [-> _]]);
      [discriminate | discriminate | | exact Hm].
    exfalso. cbn in Hin.
    repeat (destruct Hin as [[=] | Hin]). contradiction.
Defined.

(** ** A listing of any length *)

(** X13. A body made of any number of well-formed blocks, whatever separates
    them, gives the descriptors of the blocks whose names are not blank, one
    per block and in the order of the body. *)
Theorem parseBucketsXml_listing :
  forall (entries : list (string * (string * string))) (tail : string),
    Forall (fun e =>
              occursIn "<Bucket>" (fst e) = false /\
              hasUnit "<" (fst (snd e)) = false /\
              hasUnit "<" (snd (snd e)) = false /\
              JS.trim (fst (snd e)) <> "") entries ->
    occursIn "<Bucket>" tail = false ->
    parseBucketsXml
      (document
         (map (fun e => (fst e, wellFormed (fst (snd e)) (snd (snd e))))
            entries)
         tail)
    = map (fun e => wellFormedInfo (fst (snd e)) (snd (snd e))) entries.
Proof.
  intros entries tail Hall Htail.
  unfold parseBucketsXml. rewrite fold_pushBucket. cbn [app].
  rewrite matchAll_document; [|
    | exact Htail].
  - rewrite map_map. cbn [snd].
    induction Hall as [|[before [n d]] more (Hb & Hn & Hd & Hne) _ IH];
      [reflexivity|].
    cbn [fst snd] in Hn, Hd, Hne.
    cbn [map omap list_omap fst snd].
    rewrite (describeBlock_wellFormed n d Hn Hd).
    destruct (String.eqb_spec (JS.trim n) ""); [contradiction|].
    cbn [option_bind mbind]. f_equal. exact IH.
  - induction Hall as [|[before [n d]] more (Hb & Hn & Hd & Hne) _ IH];
      cbn [map]; constructor; [|exact IH].
    cbn [fst snd] in *. split; [exact Hb | now apply wellFormed_closed].
Qed.

Lemma parseBucketsXml_listing_witness :
  parseBucketsXml
    ("<Buckets><Bucket><Name>a</Name><CreationDate>1</CreationDate></Bucket>"
     ++ " <Bucket><Name> b </Name><CreationDate> </CreationDate></Bucket>"
     ++ "<Bucket><Name>c</Name><CreationDate>3</CreationDate></Bucket>"
     ++ "</Buckets>")
  = [ {| bucket_name := "a";
         bucket_creationDate := Some (DateOf "1");
         bucket_location := "auto" |};
      {| bucket_name := "b";
         bucket_creationDate := None;
         bucket_location := "auto" |};
      {| bucket_name := "c";
         bucket_creationDate := Some (DateOf "3");
         bucket_location := "auto" |} ].
Proof.
  apply (parseBucketsXml_listing
           [("<Buckets>", ("a", "1")); (" ", (" b ", " ")); ("", ("c", "3"))]
           "</Buckets>").
  - repeat constructor; discriminate.
  - reflexivity.
Defined.

(** ** The metadata of a response, exactly *)

Lemma distinct_names_value (h : headerList) (n n' v v' : string) :
  NoDup (map (fun e => JS.toLowerCase (fst e)) h) ->
  In (n, v) h -> In (n', v') h ->
  JS.toLowerCase n = JS.toLowerCase n' -> v = v'.
Proof.
  induction h as [|[n0 v0] h IH]; intros Hnd Hin Hin' Hn; [contradiction|].
  cbn [map fst] in Hnd. apply NoDup_cons in Hnd as [Hnotin Hnd].
  assert (Hfresh : forall m w,
             In (m, w) h -> JS.toLowerCase m = JS.toLowerCase n0 -> False).
  { intros m w Hw Hm. apply Hnotin. apply list_elem_of_In.
    rewrite <- Hm.
    exact (in_map (fun e => JS.toLowerCase (fst e)) h (m, w) Hw). }
  destruct Hin as [E|Hin], Hin' as [E'|Hin'].
  - congruence.
  - injection E as -> ->. now destruct (Hfresh n' v' Hin').
  - injection E' as -> ->. now destruct (Hfresh n v Hin).
  - now apply IH.
Qed.

(** X14. When the names of the headers of a successful response are distinct
    up to case, as those of a [Headers] object are, the metadata that
    [getObject] returns holds a value under a key other than [__proto__]
    exactly when the response has a header with that value whose lowercased
    name is [x-amz-meta-] followed by the key. *)
Theorem getObject_metadata_exact :
  forall (sign : string -> RequestInit -> outcome SignedRequest)
         (fetch : string -> FetchInit -> outcome Response)
         (self : R2Bucket) (key : string) (sr : SignedRequest)
         (r : Response),
    sign (baseUrl self ++ "/" ++ name self ++ "/" ++ key)
      (headerSigned "GET") = Return sr ->
    fetch (url sr)
      {| fetchMethod := "GET";
         fetchHeaders := signedHeaders sr;
         fetchBody := None |} = Return r ->
    (200 <= status r <= 299)%Z ->
    NoDup (map (fun e => JS.toLowerCase (fst e)) (responseHeaders r)) ->
    exists o : R2Object,
      snd (getObject sign fetch self key) = Return o /\
      obj_key o = key /\
      obj_body o = r /\
      forall k v,
        k <> "__proto__" ->
        ((exists m, obj_metadata o = Some m /\ m !! k = Some v) <->
         (exists n, In (n, v) (responseHeaders r) /\
                    JS.toLowerCase n = "x-amz-meta-" ++ k)).
Proof.
  intros sign fetch self key sr r Hs Hf Hok Hnd.
  exists (describeObject key r).
  split; [now apply getObject_returns with (sr := sr)|].
  split; [reflexivity|]. split; [reflexivity|].
  intros k v Hk. rewrite metadata_of_describeObject. split.
  - intros (m & Hm & Hkv).
    destruct (decide (extractMetadata (responseHeaders r) = ∅));
      [discriminate|].
    injection Hm as <-.
    apply extractMetadata_origin in Hkv as [E | H]; [|exact H].
    now rewrite lookup_empty in E.
  - intros (n & Hin & Hn).
    assert (Hget : extractMetadata (responseHeaders r) !! k = Some v).
    { apply extractMetadata_entry; [exact Hk | | right; eauto].
      intros n' v' Hin' Hn'.
      apply (distinct_names_value _ n' n v' v Hnd Hin' Hin).
      now rewrite Hn, Hn'. }
    exists (extractMetadata (responseHeaders r)).
    split; [|exact Hget].
    rewrite decide_False; [reflexivity|].
    intros E. rewrite E, lookup_empty in Hget. discriminate.
Qed.

Lemma getObject_metadata_exact_witness :
  exists o m,
    snd (getObject signEcho
           (respond (sampleResponse 200 "OK"
                       [("content-type", "image/png");
                        ("x-amz-meta-owner", "alice")] ""))
           gallery "file.jpg") = Return o /\
    obj_metadata o = Some m /\
    m !! "owner" = Some "alice".
Proof.
  destruct (getObject_metadata_exact signEcho
              (respond (sampleResponse 200 "OK"
                          [("content-type", "image/png");
                           ("x-amz-meta-owner", "alice")] ""))
              gallery "file.jpg"
              {| url := "https://abc123.r2.cloudflarestorage.com/gallery/file.jpg";
                 signedHeaders := [] |}
              (sampleResponse 200 "OK"
                 [("content-type", "image/png");
                  ("x-amz-meta-owner", "alice")] ""))
    as (o & Ho & _ & _ & Hexact).
  - reflexivity.
  - reflexivity.
  - cbn; lia.
  - cbn. apply NoDup_cons. split; [|apply NoDup_singleton].
    intros H. apply list_elem_of_In in H as [H|[]]. discriminate H.
  - destruct (proj2 (Hexact "owner" "alice" ltac:(discriminate)))
      as (m & Hm & Hkv).
    + exists "x-amz-meta-owner". split; [right; left; reflexivity|].
      reflexivity.
    + exists o, m. now repeat split.
Defined.

(** ** The failures at concrete inputs *)

Lemma failures_propagate_witness :
  snd (uploadFile signEcho fetchFails gallery "file.txt"
         (FileString "content")
         {| up_contentType := "text/plain"; up_metadata := None |})
  = Throw (TypeError "fetch failed") /\
  deleteObject signFails fetchFails gallery "file.txt"
  = ([Signed "https://abc123.r2.cloudflarestorage.com/gallery/file.txt"
        (headerSigned "DELETE")],
     Throw (TypeError "Invalid header name")).
Proof.
  destruct (failures_propagate signEcho fetchFails gallery account
              "file.txt" (FileString "content")
              {| up_contentType := "text/plain"; up_metadata := None |}
              {| dl_expiresIn := None |})
    as (_ & [_ Hupload] & _).
  destruct (failures_propagate signFails fetchFails gallery account
              "file.txt" (FileString "content")
              {| up_contentType := "text/plain"; up_metadata := None |}
              {| dl_expiresIn := None |})
    as (_ & _ & [Hdelete _] & _).
  split.
  - exact (proj2 (Hupload _ _ _ _ _ _ eq_refl eq_refl)).
  - destruct (Hdelete _ _ _ _ eq_refl eq_refl) as [_ Hthrow].
    apply injective_projections; [reflexivity | exact Hthrow].
Defined.

Lemma remote_failures_rejected_witness :
  snd (getObject signEcho
         (respond (sampleResponse 403 "Forbidden" [] "")) gallery "file.jpg")
  = Throw (Error "Get object failed: 403 Forbidden") /\
  snd (listBuckets signEcho
         (respond (sampleResponse 500 "Internal Server Error" [] ""))
         account)
  = Throw (Error "List buckets failed: 500 Internal Server Error").
Proof.
  split.
  - destruct (remote_failures_rejected signEcho
                (respond (sampleResponse 403 "Forbidden" [] ""))
                gallery account "file.jpg" (FileString "")
                {| up_contentType := ""; up_metadata := None |})
      as (_ & Hget & _).
    apply (Hget _ _ _ _ _ (sampleResponse 403 "Forbidden" [] "")
             eq_refl eq_refl).
    cbn. lia.
  - destruct (remote_failures_rejected signEcho
                (respond (sampleResponse 500 "Internal Server Error" [] ""))
                gallery account "file.jpg" (FileString "")
                {| up_contentType := ""; up_metadata := None |})
      as (_ & _ & _ & Hlist).
    apply (Hlist _ _ _ _ _
             (sampleResponse 500 "Internal Server Error" [] "")
             eq_refl eq_refl).
    cbn. lia.
Defined.
